(** * eKuiper runtime core: fault isolation, error drain, analytic functions, sink node

    A shallow embedding of
    - [pkg/infra]: [SafeRun] and [DrainError];
    - [internal/binder/function/funcs_analytic.go]: [changed_col],
      [had_changed], [lag] and [latest];
    - [internal/topo/node/sink_node.go]: [ingest] and the loop of [Exec];
    and the properties of these that the specification states. *)

From stdpp Require Import base option list strings pretty gmap.
From Stdlib Require Import ZArith Lia.

Open Scope Z_scope.

(** * Go values shared by the three packages *)

(** The [error] interface.  [errorString] is what [errors.New] and a
    [fmt.Errorf] without [%w] build; [eofError] is what [errorx.NewEOF]
    builds; [runtimeError] is a [runtime.Error] raised by the Go runtime;
    [otherError] stands for the errors of collaborators (state store, sink). *)
Inductive error : Type :=
| errorString (s : string)
| eofError (s : string)
| runtimeError (s : string)
| otherError (kind msg : string).

(** The [Error()] method. *)
Definition Error (e : error) : string :=
  match e with
  | errorString s => s
  | eofError s => s
  | runtimeError s => "runtime error: " +:+ s
  | otherError _ msg => msg
  end.

Definition errors_New (s : string) : error := errorString s.
Definition fmt_Errorf (rendered : string) : error := errorString rendered.

Global Instance error_eq_dec : EqDecision error.
Proof. solve_decision. Defined.

(** A value of type [interface{}] as the rows and the function results
    carry it. *)
Inductive value : Type :=
| VNil
| VBool (b : bool)
| VInt (n : Z)
| VStr (s : string)
| VErr (e : error).

Global Instance value_eq_dec : EqDecision value.
Proof. solve_decision. Defined.

Definition is_nil (v : value) : bool :=
  match v with VNil => true | _ => false end.

Definition Sprint_bool (b : bool) : string := if b then "true" else "false".

(** [fmt]'s [%v] and [%d]. *)
Definition Sprint_v (v : value) : string :=
  match v with
  | VNil => "<nil>"
  | VBool b => Sprint_bool b
  | VInt n => pretty n
  | VStr s => s
  | VErr e => Error e
  end.

Definition Sprint_d (n : Z) : string := pretty n.

(** [strconv.Itoa] *)
Definition Itoa (n : Z) : string := pretty n.

(** ** Loggers *)

Inductive logger : Type := CtxLogger | ConfLog | Stderr.

(** One record per [Errorf] call (and per [debug.PrintStack]). *)
Record logrec : Type := LogRec { log_to : logger; log_msg : string }.

Definition Errorf (to : logger) (msg : string) (lg : list logrec) : list logrec :=
  lg ++ [LogRec to msg].

(** ** Channels *)

(** A channel: its capacity, the values buffered (oldest first), the number
    of receivers blocked on it, the values receivers have taken, and
    whether it was closed. *)
Record chan (A : Type) : Type := Chan {
  cap : nat;
  buf : list A;
  recvq : nat;
  taken : list A;
  closed : bool
}.
Arguments Chan {A}.
Arguments cap {A}.
Arguments buf {A}.
Arguments recvq {A}.
Arguments taken {A}.
Arguments closed {A}.

Definition make_chan {A} (n : nat) : chan A := Chan n [] 0 [] false.

(** Whether [c <- v] can proceed at once on an open channel. *)
Definition has_room {A} (c : chan A) : bool :=
  bool_decide (0 < recvq c)%nat || bool_decide (length (buf c) < cap c)%nat.

(** The effect of a send that proceeds: a blocked receiver takes the value,
    otherwise it is buffered. *)
Definition deliver {A} (v : A) (c : chan A) : chan A :=
  if bool_decide (0 < recvq c)%nat
  then Chan (cap c) (buf c) (Nat.pred (recvq c)) (taken c ++ [v]) (closed c)
  else Chan (cap c) (buf c ++ [v]) (recvq c) (taken c) (closed c).

(** A send case of a [select] is ready when the channel is closed (the send
    then panics) or has room; a nil channel is never ready. *)
Definition send_ready {A} (ch : option (chan A)) : bool :=
  match ch with
  | None => false
  | Some c => closed c || has_room c
  end.

Inductive sendres (A : Type) : Type :=
| Sent (c : chan A)
| SendPanics.
Arguments Sent {A}.
Arguments SendPanics {A}.

(** A ready send, carried out. *)
Definition do_send {A} (v : A) (c : chan A) : sendres A :=
  if closed c then SendPanics else Sent (deliver v c).

Definition send_on_closed : error := runtimeError "send on closed channel".

(** How many values a channel has carried so far. *)
Definition carried {A} (c : chan A) : nat := length (taken c ++ buf c).

(** * Package infra *)

Module Infra.

(** What a panic carries, as [recover] hands it over.  [POpaque] is a value
    of any dynamic type other than string, error, bool and int, known by its
    Go-syntax rendering.  There is no nil payload: a [panic(nil)] reaches
    [recover] as a [*runtime.PanicNilError], an error. *)
Inductive payload : Type :=
| PString (s : string)
| PError (e : error)
| PBool (b : bool)
| PInt (n : Z)
| POpaque (gosyntax : string).

(** [fmt]'s [%#v] on the payloads that are neither strings nor errors. *)
Definition Sprint_sharp_v (r : payload) : string :=
  match r with
  | PBool b => Sprint_bool b
  | PInt n => pretty n
  | POpaque g => g
  | PString s => s
  | PError e => Error e
  end.

(** How a call ends. *)
Inductive outcome (A : Type) : Type :=
| Returns (a : A)
| Panics (r : payload).
Arguments Returns {A}.
Arguments Panics {A}.

(** [recover()] in a deferred function: nil unless the call is panicking. *)
Definition recover {A} (o : outcome A) : option payload :=
  match o with
  | Returns _ => None
  | Panics r => Some r
  end.

Section SafeRun.
(** The state the unit works on. *)
Variable W : Type.

(** [SafeRun(fn)]: the error returned, the state [fn] left, and the
    records written.  [stack] is what [debug.Stack()] returns. *)
Definition SafeRun (fn : W -> outcome (option error) * W) (stack : string)
    (w : W) : option error * W * list logrec :=
  let '(o, w') := fn w in
  (* err = fn(); the deferred function runs on the way out *)
  let err := match o with Returns e => e | Panics _ => None end in
  match recover o with
  | Some r =>
      let lg := Errorf Stderr stack
                  (Errorf ConfLog ("panic stack:" +:+ stack) []) in
      let err' :=
        match r with
        | PString x => errors_New x
        | PError x => x
        | x => fmt_Errorf (Sprint_sharp_v x)
        end in
      (Some err', w', lg)
  | None => (err, w', [])
  end.
End SafeRun.
Arguments SafeRun {W}.

Inductive drained : Type :=
| Drained (lg : list logrec) (ch : option (chan (option error)))
| DrainPanics (lg : list logrec) (r : payload).

(** [DrainError(ctx, err, errCh)].  [ctx_set] tells whether [ctx != nil];
    [caller] is the file and line [runtime.Caller(1)] reports. *)
Definition DrainError (caller : string * Z) (ctx_set : bool)
    (err : option error) (errCh : option (chan (option error)))
    (lg : list logrec) : drained :=
  let lg1 :=
    match err with
    | Some e =>
        if ctx_set
        then Errorf CtxLogger
               ("runtime error from " +:+ caller.1 +:+ "/l" +:+
                Sprint_d caller.2 +:+ ": " +:+ Error e) lg
        else Errorf ConfLog
               ("runtime error " +:+ caller.1 +:+ "/l" +:+
                Sprint_d caller.2 +:+ ": " +:+ Error e) lg
    | None => lg
    end in
  (* select { case errCh <- err: default: } *)
  match errCh with
  | Some c =>
      if send_ready errCh then
        match do_send err c with
        | Sent c' => Drained lg1 (Some c')
        | SendPanics => DrainPanics lg1 (PError send_on_closed)
        end
      else Drained lg1 errCh
  | None => Drained lg1 None
  end.

(** ** MsgWithStack *)

(** A [runtime.Frame], by the fields the message prints. *)
Record frame : Type := Frame { File : string; Line : Z; Function : string }.

Definition newline : string := String (Ascii.ascii_of_nat 10) EmptyString.

(** [fmt.Sprintf("%s:%d %s\n", frame.File, frame.Line, frame.Function)] *)
Definition frame_line (f : frame) : string :=
  File f +:+ ":" +:+ Sprint_d (Line f) +:+ " " +:+ Function f +:+ newline.

(** [frames.Next()]: the next frame, whether more frames follow it, and the
    frames left.  With no frame left it gives the zero frame. *)
Definition Next (fs : list frame) : frame * bool * list frame :=
  match fs with
  | [] => (Frame "" 0 "", false, [])
  | f :: rest => (f, bool_decide (rest ≠ []), rest)
  end.

(** The loop of [MsgWithStack] over the frames still to come, [sb] being
    what the builder holds: the loop is left as soon as [Next] says that no
    more frames follow, before the frame it gave is written. *)
Fixpoint write_frames (fs : list frame) (sb : string) : string :=
  match fs with
  | [] => sb
  | f :: rest =>
      if (Next fs).1.2 then write_frames rest (sb +:+ frame_line f) else sb
  end.

(** [MsgWithStack(msg)].  [stack] is the call stack, innermost frame first:
    [runtime.Callers] itself, then [MsgWithStack], then its callers;
    [runtime.Callers(2, pcs)] skips the first two and takes 32 at most.
    One frame stands for each program counter. *)
Definition MsgWithStack (msg : string) (stack : list frame) : string :=
  let depth := 32%nat in
  let frames := take depth (drop 2 stack) in
  msg +:+ newline +:+ "Stack:" +:+ newline +:+ write_frames frames "".

(** The records a call of [DrainError] leaves. *)
Definition drained_logs (d : drained) : list logrec :=
  match d with Drained lg _ => lg | DrainPanics lg _ => lg end.

End Infra.

(** * Package function: the analytic functions *)

Module Analytic.

(** Modelled from the spec: the [ringqueue] type and its methods
    ([newRingqueue], [fill], [append], [peek], [fetch]) are not in the
    sources at hand.  "Ordered circular sequence of capacity slots":
    the slots are kept oldest first. *)
Record ringqueue : Type := Ringqueue { slots : list value }.

(** Modelled from the spec: [newRingqueue], "allocates capacity slots, all
    empty".  The spec has capacities from 1 on; a size below 1 gives a
    queue with no slot. *)
Definition rq_new (size : Z) : ringqueue := Ringqueue (replicate (Z.to_nat size) VNil).

(** Modelled from the spec: [fill], "sets every slot to value". *)
Definition rq_fill (v : value) (q : ringqueue) : ringqueue :=
  Ringqueue (replicate (length (slots q)) v).

(** Modelled from the spec: [peek], "returns the oldest value without
    mutating state". *)
Definition rq_peek (q : ringqueue) : value * bool :=
  match slots q with
  | [] => (VNil, false)
  | x :: _ => (x, true)
  end.

(** Modelled from the spec: [append], "inserts value as newest, evicts and
    returns the oldest value, maintaining exactly capacity size". *)
Definition rq_append (v : value) (q : ringqueue) : value * ringqueue :=
  match slots q with
  | [] => (VNil, q)
  | x :: rest => (x, Ringqueue (rest ++ [v]))
  end.

(** Modelled from the spec: [fetch], "returns the same value append would
    evict"; the eviction itself is [append]'s. *)
Definition rq_fetch (q : ringqueue) : value * bool := rq_peek q.

(** What the state store holds under a key: a row value, or the
    [*ringqueue] that [lag] keeps. *)
Inductive stored : Type :=
| Plain (v : value)
| RqPtr (p : nat).
Coercion Plain : value >-> stored.

Global Instance stored_eq_dec : EqDecision stored.
Proof. solve_decision. Defined.

(** [reflect.DeepEqual(v, lv)] for a row value [v]: a [*ringqueue] never
    equals a row value.  On the values of [value] (nil, booleans, integers
    of one type, strings, errors) it is equality; a value that is not deeply
    equal to itself (a float NaN) and integers of differing types are
    outside [value], and a property that needs a value to equal itself says
    so. *)
Definition DeepEqual (v : value) (lv : stored) : bool :=
  match lv with
  | Plain u => bool_decide (v = u)
  | RqPtr _ => false
  end.

(** The state access of [api.FunctionContext]. *)
Class FunctionContext (S : Type) : Type := {
  GetState : string -> S -> stored * option error;
  PutState : string -> stored -> S -> S * option error
}.

(** The state store and the heap the ringqueues live on; a [*ringqueue] is
    an index into the heap. *)
Record world (S : Type) : Type := World { store : S; heap : list ringqueue }.
Arguments World {S}.
Arguments store {S}.
Arguments heap {S}.

(** How [exec] ends: [(result, ok)] or a panic. *)
Definition result : Type := Infra.outcome (stored * bool).

(** Computations of a function body: a value to go on with, or the end of
    the call. *)
Definition M (S A : Type) : Type := world S -> (A + result) * world S.

Global Instance M_ret {S} : MRet (M S) := fun A a w => (inl a, w).
Global Instance M_bind {S} : MBind (M S) := fun A B f m w =>
  match m w with
  | (inl a, w') => f a w'
  | (inr r, w') => (inr r, w')
  end.

(** [return v, ok] in the middle of the body. *)
Definition exit {S A} (v : stored) (ok : bool) : M S A :=
  fun w => (inr (Infra.Returns (v, ok)), w).

Definition panic {S A} (e : error) : M S A :=
  fun w => (inr (Infra.Panics (Infra.PError e)), w).

(** Runs a body to the end of the call. *)
Definition exec {S} (body : M S (stored * bool)) (w : world S) : result * world S :=
  match body w with
  | (inl r, w') => (Infra.Returns r, w')
  | (inr o, w') => (o, w')
  end.

(** Every way in which a computation ends the call satisfies [P]. *)
Definition ends_with {S A} (P : result -> Prop) (m : M S A) : Prop :=
  forall w r w', m w = (inr r, w') -> P r.

(** Every value a computation goes on with satisfies [Q]. *)
Definition goes_on_with {S A} (Q : A -> Prop) (m : M S A) : Prop :=
  forall w a w', m w = (inl a, w') -> Q a.

Definition len (args : list value) : Z := Z.of_nat (length args).

(** The arguments of a call: the positional ones, then the validity flag
    and the partition key that the engine appends. *)
Definition call (positional : list value) (validData key : value) : list value :=
  positional ++ [validData; key].

(** [args[i]] *)
Definition index {S} (args : list value) (i : Z) : M S value :=
  if bool_decide (0 <= i) then
    match args !! Z.to_nat i with
    | Some v => mret v
    | None => panic (runtimeError "index out of range")
    end
  else panic (runtimeError "index out of range").

(** [v.(bool)] with the comma-ok form. *)
Definition as_bool (v : value) : option bool :=
  match v with VBool b => Some b | _ => None end.

(** [v.(string)], which panics on any other type. *)
Definition assert_string {S} (v : value) : M S string :=
  match v with
  | VStr s => mret s
  | _ => panic (runtimeError "interface conversion: interface {} is not string")
  end.

Definition nil_deref : error :=
  runtimeError "invalid memory address or nil pointer dereference".

Section Exec.
Context {S : Type} `{FunctionContext S}.

Definition getState (key : string) : M S (stored * option error) :=
  fun w => (inl (GetState key (store w)), w).

Definition putState (key : string) (v : stored) : M S (option error) :=
  fun w => let '(s', e) := PutState key v (store w) in
           (inl e, World s' (heap w)).

(** [newRingqueue(size)]: a fresh cell on the heap. *)
Definition newRingqueue (size : Z) : M S (option nat) :=
  fun w => (inl (Some (length (heap w))), World (store w) (heap w ++ [rq_new size])).

(** A [*ringqueue] as an [interface{}]. *)
Definition of_ptr (rq : option nat) : stored :=
  match rq with Some p => RqPtr p | None => Plain VNil end.

(** Reads the queue a method is called on. *)
Definition deref (rq : option nat) : M S (nat * ringqueue) :=
  fun w => match rq with
           | Some p =>
               match heap w !! p with
               | Some q => (inl (p, q), w)
               | None => panic nil_deref w
               end
           | None => panic nil_deref w
           end.

Definition setq (p : nat) (q : ringqueue) : M S unit :=
  fun w => (inl tt, World (store w) (<[p := q]> (heap w))).

Definition fill (rq : option nat) (v : value) : M S unit :=
  '(p, q) ← deref rq; setq p (rq_fill v q).

Definition peek (rq : option nat) : M S (value * bool) :=
  '(p, q) ← deref rq; mret (rq_peek q).

Definition fetch (rq : option nat) : M S (value * bool) :=
  '(p, q) ← deref rq; mret (rq_fetch q).

Definition append (rq : option nat) (v : value) : M S value :=
  '(p, q) ← deref rq;
  let '(old, q') := rq_append v q in
  setq p q';; mret old.

Definition not_bool_first (v : value) : error :=
  fmt_Errorf ("first arg is not a bool but got " +:+ Sprint_v v).
Definition not_bool_when (v : value) : error :=
  fmt_Errorf ("when arg is not a bool but got " +:+ Sprint_v v).
Definition not_bool_fourth (v : value) : error :=
  fmt_Errorf ("The fourth arg is not a bool but got " +:+ Sprint_v v).
Definition get_failed (k : string) (e : error) : error :=
  fmt_Errorf ("error getting state for " +:+ k +:+ ": " +:+ Error e).
Definition put_failed (k : string) (e : error) : error :=
  fmt_Errorf ("error setting state for " +:+ k +:+ ": " +:+ Error e).

(** [builtins["changed_col"].exec] *)
Definition changed_col (args : list value) : M S (stored * bool) :=
  a0 ← index args 0;
  match as_bool a0 with
  | None => exit (VErr (not_bool_first a0)) false
  | Some ignoreNull =>
      skip ← (if ignoreNull then a1 ← index args 1; mret (is_nil a1)
              else mret false);
      if skip : bool then exit VNil true else
      w ← index args (len args - 2);
      match as_bool w with
      | None => exit (VErr (not_bool_when w)) false
      | Some validData =>
          if negb validData then exit VNil true else
          kv ← index args (len args - 1);
          key ← assert_string kv;
          '(lv, err) ← getState key;
          match err with
          | Some e => exit (VErr e) false
          | None =>
              a1 ← index args 1;
              if negb (DeepEqual a1 lv) then
                err ← putState key (Plain a1);
                match err with
                | Some e => exit (VErr e) false
                | None => exit a1 true
                end
              else mret (Plain VNil, true)
          end
      end
  end.

Definition arity_more_than_one (n : Z) : error :=
  fmt_Errorf ("expect more than one arg but got " +:+ Sprint_d n).

(** The loop of [had_changed], over the indexes still to visit. *)
Fixpoint had_changed_loop (ignoreNull : bool) (key : string)
    (args : list value) (todo : list nat) (result : bool) : M S bool :=
  match todo with
  | [] => mret result
  | i :: todo' =>
      v ← index args (Z.of_nat i);
      let k := key +:+ Itoa (Z.of_nat i) in
      if ignoreNull && is_nil v then
        had_changed_loop ignoreNull key args todo' result
      else
        '(lv, err) ← getState k;
        match err with
        | Some e => exit (VErr (get_failed k e)) false
        | None =>
            if negb (DeepEqual v lv) then
              err ← putState k (Plain v);
              match err with
              | Some e => exit (VErr (put_failed k e)) false
              | None => had_changed_loop ignoreNull key args todo' true
              end
            else had_changed_loop ignoreNull key args todo' result
        end
  end.

(** [builtins["had_changed"].exec] *)
Definition had_changed (args : list value) : M S (stored * bool) :=
  let l := len args - 2 in
  if bool_decide (l <= 1) then exit (VErr (arity_more_than_one (len args))) false else
  w ← index args (len args - 2);
  match as_bool w with
  | None => exit (VErr (not_bool_when w)) false
  | Some validData =>
      if negb validData then exit (VBool false) true else
      a0 ← index args 0;
      match as_bool a0 with
      | None => exit (VErr (not_bool_first a0)) false
      | Some ignoreNull =>
          kv ← index args (len args - 1);
          key ← assert_string kv;
          let paraLen := len args - 2 in
          (* for i := 1; i < paraLen; i++ *)
          r ← had_changed_loop ignoreNull key args
                (seq 1 (Z.to_nat paraLen - 1)%nat) false;
          mret (Plain (VBool r), true)
      end
  end.

(** [cast.ToInt(v, cast.STRICT)], of package [cast]. *)
Variable ToInt : value -> Z * option error.

Definition arity_1_to_4 (l : Z) : error :=
  fmt_Errorf ("expect from 1 to 4 args but got " +:+ Sprint_d l).
Definition not_int_second (v : value) (e : error) : error :=
  fmt_Errorf ("error converting second arg " +:+ Sprint_v v +:+ " to int: " +:+ Error e).

(** The assertion of [v] to a [*ringqueue] with the comma-ok form: the nil
    pointer on any other type. *)
Definition as_ringqueue (v : stored) : option nat :=
  match v with RqPtr p => Some p | Plain _ => None end.

(** [builtins["lag"].exec] *)
Definition lag (args : list value) : M S (stored * bool) :=
  let l := len args - 2 in
  if bool_decide (l < 1) || bool_decide (l > 4) then
    exit (VErr (arity_1_to_4 l)) false else
  kv ← index args (len args - 1);
  key ← assert_string kv;
  '(v, err) ← getState key;
  match err with
  | Some e => exit (VErr (get_failed key e)) false
  | None =>
      w ← index args (len args - 2);
      match as_bool w with
      | None => exit (VErr (not_bool_when w)) false
      | Some validData =>
          size ← (if bool_decide (l >= 2) then
                    a1 ← index args 1;
                    match ToInt a1 with
                    | (_, Some e) => exit (VErr (not_int_second a1 e)) false
                    | (n, None) => mret n
                    end
                  else mret 1);
          dftVal ← (if bool_decide (l >= 3) then index args 2 else mret VNil);
          ignoreNull ← (if bool_decide (l >= 4) then
                          a3 ← index args 3;
                          match as_bool a3 with
                          | None =>
                              a0 ← index args 0;
                              exit (VErr (not_bool_fourth a0)) false
                          | Some b => mret b
                          end
                        else mret true);
          (* first time call, need create state for lag *)
          rq ← (if bool_decide (v = Plain VNil) then
                  rq ← newRingqueue size;
                  fill rq dftVal;;
                  err ← putState key (of_ptr rq);
                  match err with
                  | Some e => exit (VErr (put_failed key e)) false
                  | None => mret rq
                  end
                else mret (as_ringqueue v));
          '(rtnVal, _) ← peek rq;
          if validData : bool then
            a0 ← index args 0;
            if negb ignoreNull || negb (is_nil a0) then
              '(rtnVal, _) ← fetch rq;
              append rq a0;;
              err ← putState key (of_ptr rq);
              match err with
              | Some e => exit (VErr (put_failed key e)) false
              | None => mret (Plain rtnVal, true)
              end
            else mret (Plain rtnVal, true)
          else mret (Plain rtnVal, true)
      end
  end.

Definition arity_1_or_2 (l : Z) : error :=
  fmt_Errorf ("expect one or two args but got " +:+ Sprint_d l).

(** [builtins["latest"].exec] *)
Definition latest (args : list value) : M S (stored * bool) :=
  let l := len args - 2 in
  if bool_decide (l ≠ 1) && bool_decide (l ≠ 2) then
    exit (VErr (arity_1_or_2 l)) false else
  let paraLen := len args - 2 in
  kv ← index args (len args - 1);
  key ← assert_string kv;
  w ← index args (len args - 2);
  match as_bool w with
  | None => exit (VErr (not_bool_when w)) false
  | Some validData =>
      (* notice nil is ignored in latest *)
      fresh ← (if validData then a0 ← index args 0; mret (negb (is_nil a0))
               else mret false);
      if fresh : bool then
        a0 ← index args 0;
        putState key (Plain a0);;
        mret (Plain a0, true)
      else
        '(v, err) ← getState key;
        match err with
        | Some e => exit (VErr (get_failed key e)) false
        | None =>
            if bool_decide (v = Plain VNil) then
              if bool_decide (paraLen = 2) then
                a1 ← index args 1; mret (Plain a1, true)
              else mret (Plain VNil, true)
            else mret (v, true)
        end
  end.
End Exec.

(** ** Static validation *)

Section Val.
(** [ast.Expr] and the predicates of package [ast] that the validation of
    [had_changed] asks; [ProduceErrInfo] of package [function]. *)
Variable Expr : Type.
Variables IsNumericArg IsTimeArg IsStringArg : Expr -> bool.
Variable ProduceErrInfo : Z -> string -> error.

(** [builtins["had_changed"].val] *)
Definition had_changed_val (args : list Expr) : Infra.outcome (option error) :=
  if bool_decide (Z.of_nat (length args) <= 1) then
    Infra.Returns (Some (arity_more_than_one (Z.of_nat (length args))))
  else
    match args !! 0%nat with
    | Some a0 =>
        if IsNumericArg a0 || IsTimeArg a0 || IsStringArg a0 then
          Infra.Returns (Some (ProduceErrInfo 0 "bool"))
        else Infra.Returns None
    | None => Infra.Panics (Infra.PError (runtimeError "index out of range"))
    end.
End Val.

Section ValLagLatest.
(** [ast.Expr], the predicates of package [ast], the assertion of an
    expression to [*ast.IntegerLiteral] (its [Val]), and [ProduceErrInfo]
    of package [function]. *)
Variable Expr : Type.
Variables IsNumericArg IsTimeArg IsStringArg : Expr -> bool.
Variables IsFloatArg IsBooleanArg IsFieldRefArg : Expr -> bool.
Variable IntegerLiteral : Expr -> option Z.
Variable ProduceErrInfo : Z -> string -> error.

Definition lag_val_arity (l : Z) : error :=
  fmt_Errorf ("expect one two or three args but got " +:+ Sprint_d l).
Definition negative_index : error :=
  fmt_Errorf "the index should not be a nagtive integer".

Definition out_of_range : Infra.outcome (option error) :=
  Infra.Panics (Infra.PError (runtimeError "index out of range")).

(** [builtins["lag"].val] *)
Definition lag_val (args : list Expr) : Infra.outcome (option error) :=
  let l := Z.of_nat (length args) in
  if bool_decide (l ≠ 1) && bool_decide (l ≠ 2) && bool_decide (l ≠ 3)
     && bool_decide (l ≠ 4) then
    Infra.Returns (Some (lag_val_arity l))
  else
    let second :=
      if bool_decide (l >= 2) then
        match args !! 1%nat with
        | Some a1 =>
            if IsFloatArg a1 || IsTimeArg a1 || IsBooleanArg a1
               || IsStringArg a1 || IsFieldRefArg a1 then
              Infra.Returns (Some (ProduceErrInfo 1 "int"))
            else
              match IntegerLiteral a1 with
              | Some n =>
                  if bool_decide (n < 0) then Infra.Returns (Some negative_index)
                  else Infra.Returns None
              | None => Infra.Returns None
              end
        | None => out_of_range
        end
      else Infra.Returns None in
    match second with
    | Infra.Returns None =>
        if bool_decide (l = 4) then
          match args !! 3%nat with
          | Some a3 =>
              if IsNumericArg a3 || IsTimeArg a3 || IsStringArg a3 then
                Infra.Returns (Some (ProduceErrInfo 3 "bool"))
              else Infra.Returns None
          | None => out_of_range
          end
        else Infra.Returns None
    | ended => ended
    end.

(** [builtins["latest"].val] *)
Definition latest_val (args : list Expr) : Infra.outcome (option error) :=
  let l := Z.of_nat (length args) in
  if bool_decide (l ≠ 1) && bool_decide (l ≠ 2) then
    Infra.Returns (Some (arity_1_or_2 l))
  else Infra.Returns None.
End ValLagLatest.

(** A conversion that takes integers only, for [cast.ToInt]. *)
Definition int_only (v : value) : Z * option error :=
  match v with
  | VInt n => (n, None)
  | _ => (0, Some (fmt_Errorf ("cannot convert " +:+ Sprint_v v +:+ " to int")))
  end.

(** ** A state store kept in memory *)

(** A store that keeps what it is given and never fails; an absent key reads
    as nil. *)
Global Instance MemStore : FunctionContext (gmap string stored) := {
  GetState k m := (default (Plain VNil) (m !! k), None);
  PutState k v m := (<[k := v]> m, None)
}.

(** Nothing stored, and 5 stored under k. *)
Definition nothing_stored : world (gmap string stored) := World ∅ [].
Definition five_stored : world (gmap string stored) :=
  World {["k" := Plain (VInt 5)]} [].

Definition disk_full : error := otherError "kv" "disk full".

(** 5 stored under k1, and a queue holding 5 and 6 stored under k. *)
Definition five_at_one : world (gmap string stored) :=
  World {["k1" := Plain (VInt 5)]} [].
Definition queue_stored : world (gmap string stored) :=
  World {["k" := RqPtr 0%nat]} [Ringqueue [VInt 5; VInt 6]].

(** A store whose writes fail with [e] and change nothing. *)
Definition FailingPut (e : error) : FunctionContext (gmap string stored) := {|
  GetState k m := (default (Plain VNil) (m !! k), None);
  PutState k v m := (m, Some e)
|}.


End Analytic.

(** * Package node: the sink node *)

Module Sink.

(** What arrives on the input channel, by the cases [ingest] tells apart. *)
Inductive item : Type :=
| INil
| IError (e : error)
| IWatermark (ts : Z)
| IBatchEOF
| IEOF (s : string)
| IOther (data : string).

(** The calls to the node's statistics hooks, in order. *)
Inductive stat : Type :=
| OnProcessStart (d : item)
| OnError (e : error)
| OnSend (d : item)
| OnProcessEnd
| SetBufferLength
| NodeClose.

(** Go's [int]. *)
Definition wrap_int (z : Z) : Z := (z + 2 ^ 63) `mod` 2 ^ 64 - 2 ^ 63.

Section Node.
(** The sink instance behind [api.Sink]. *)
Variable K : Type.

(** The fields of [SinkNode] (with [name], [sendError] and [ctrlCh] of the
    embedded [defaultSinkNode]).  An error channel is named by its index
    in the table of the world below, so that [ctrlCh] and the [errCh] of
    [Exec] may be one channel. *)
Record SinkNode : Type := MkSinkNode {
  name : string;
  sendError : bool;
  ctrlCh : option nat;
  sink : K;
  eoflimit : Z;
  currentEof : Z;
  resendInterval : Z;
  resendOut : option (chan item)
}.

Definition set_sink (k : K) (s : SinkNode) : SinkNode :=
  MkSinkNode (name s) (sendError s) (ctrlCh s) k (eoflimit s) (currentEof s)
    (resendInterval s) (resendOut s).
Definition set_currentEof (n : Z) (s : SinkNode) : SinkNode :=
  MkSinkNode (name s) (sendError s) (ctrlCh s) (sink s) (eoflimit s) n
    (resendInterval s) (resendOut s).
Definition set_resendOut (c : option (chan item)) (s : SinkNode) : SinkNode :=
  MkSinkNode (name s) (sendError s) (ctrlCh s) (sink s) (eoflimit s)
    (currentEof s) (resendInterval s) c.

(** What surrounds the node: whether the context is cancelled, the error
    channels, the [errCh] given to [Exec], the records logged at error
    level, and the statistics calls made. *)
Record world : Type := MkWorld {
  cancelled : bool;
  errchans : list (chan (option error));
  errCh : option nat;
  logs : list logrec;
  stats : list stat
}.

Definition set_cancelled (b : bool) (w : world) : world :=
  MkWorld b (errchans w) (errCh w) (logs w) (stats w).
Definition set_errchans (cs : list (chan (option error))) (w : world) : world :=
  MkWorld (cancelled w) cs (errCh w) (logs w) (stats w).
Definition set_logs (lg : list logrec) (w : world) : world :=
  MkWorld (cancelled w) (errchans w) (errCh w) lg (stats w).
Definition note (e : list stat) (w : world) : world :=
  MkWorld (cancelled w) (errchans w) (errCh w) (logs w) (stats w ++ e).

(** The collaborators: the collect strategy, [preprocess] and
    [BroadcastCustomized] of the embedded node (the value the callback is
    called with, if it is called), [errorx.IsIOError], [xsql.GetId] as
    [%v] prints it, [Connect] and [Close] of the sink. *)
Variable doCollect : K -> item -> K * option error.
Variable preprocess : item -> item * bool.
Variable BroadcastCustomized : item -> option item.
Variable IsIOError : error -> bool.
Variable GetId : item -> string.
Variable Connect : K -> K * option error.
Variable Close : K -> K.
(** The path of sink_node.go as [runtime.Caller] reports it, and what
    [debug.Stack] returns. *)
Variable file : string.
Variable stack : string.

(** [infra.DrainError(ctx, err, ch)] called at [line], on the channel
    named [id]; a name with no channel in the table stands for the nil
    channel. *)
Definition drain (line : Z) (err : option error) (id : option nat)
    (w : world) : Infra.outcome unit * world :=
  match Infra.DrainError (file, line) true err (i ← id; errchans w !! i) (logs w) with
  | Infra.Drained lg ch =>
      let w1 := set_logs lg w in
      (Infra.Returns tt,
       match id, ch with
       | Some i, Some c => set_errchans (<[i := c]> (errchans w)) w1
       | _, _ => w1
       end)
  | Infra.DrainPanics lg r => (Infra.Panics r, set_logs lg w)
  end.

(** [errorx.NewEOF] *)
Definition NewEOF (s : string) : error := eofError s.

(** [(s *SinkNode) ingest] *)
Definition ingest (s : SinkNode) (w : world) (it : item)
    : Infra.outcome (item * bool) * SinkNode * world :=
  let '(it, processed) := preprocess it in
  if processed then (Infra.Returns (it, processed), s, w) else
  match it with
  | IError d =>
      if sendError s then (Infra.Returns (IError d, false), s, w)
      else (Infra.Returns (INil, true), s, w)
  | IWatermark _ | IBatchEOF => (Infra.Returns (INil, true), s, w)
  | IEOF d =>
      let s := set_currentEof (wrap_int (currentEof s + 1)) s in
      if bool_decide (eoflimit s = currentEof s) then
        match drain 188 (Some (NewEOF d)) (ctrlCh s) w with
        | (Infra.Returns _, w') => (Infra.Returns (INil, true), s, w')
        | (Infra.Panics r, w') => (Infra.Panics r, s, w')
        end
      else (Infra.Returns (INil, true), s, w)
  | _ => (Infra.Returns (it, false), s, w)
  end.

(** Where the goroutine of [Exec] stands. *)
Inductive phase : Type :=
| Idle
| Retrying (data : item) (err : error)
| Exited (err : option error)
| Crashed (r : Infra.payload).

Record state : Type := MkState { node : SinkNode; env : world; at_ : phase }.

(** What the runtime and the surroundings do next: the context is
    cancelled; a blocking [select] takes [ctx.Done()], an input item, or
    a tick.  [pick] settles the choice the runtime makes when both the
    send and [ctx.Done()] are ready in the resend [select]. *)
Inductive event : Type :=
| Cancel
| SelDone
| SelInput (d : item) (pick : bool)
| SelTick.

Definition buffer_full (s : SinkNode) : error :=
  fmt_Errorf ("buffer full, drop message from " +:+ name s +:+ " to resend sink").

(** The callback given to [BroadcastCustomized]: the [select] with a
    send, [ctx.Done()] and a default. *)
Definition resend (pick : bool) (val : item) (s : SinkNode) (w : world)
    : Infra.outcome unit * SinkNode * world :=
  match resendOut s with
  | Some c =>
      let send :=
        match do_send val c with
        | Sent c' => (Infra.Returns tt, set_resendOut (Some c') s, w)
        | SendPanics => (Infra.Panics (Infra.PError send_on_closed), s, w)
        end in
      match send_ready (resendOut s), cancelled w with
      | true, true => if pick then send else (Infra.Returns tt, s, w)
      | true, false => send
      | false, true => (Infra.Returns tt, s, w)
      | false, false => (Infra.Returns tt, s, note [OnError (buffer_full s)] w)
      end
  | None =>
      if cancelled w then (Infra.Returns tt, s, w)
      else (Infra.Returns tt, s, note [OnError (buffer_full s)] w)
  end.

(** The end of the goroutine once the function given to [SafeRun] is
    left: the recovery of [SafeRun], and the drain of the error. *)
Definition recovered (o : Infra.outcome (option error)) (s : SinkNode) (w : world) : state :=
  let '(err, _, lg) := Infra.SafeRun (fun u : unit => (o, u)) stack tt in
  let w := set_logs (logs w ++ lg) w in
  match err with
  | Some e =>
      match drain 155 (Some e) (errCh w) w with
      | (Infra.Returns _, w') => MkState s w' (Exited err)
      | (Infra.Panics r, w') => MkState s w' (Crashed r)
      end
  | None => MkState s w (Exited None)
  end.

(** The way out of the loop: the deferred close of the sink and of the
    node come first. *)
Definition leave (o : Infra.outcome (option error)) (s : SinkNode) (w : world) : state :=
  recovered o (set_sink (Close (sink s)) s) (note [NodeClose] w).

(** The end of one turn of the loop. *)
Definition process_end (s : SinkNode) (w : world) : state :=
  MkState s (note [OnProcessEnd; SetBufferLength] w) Idle.

(** The test of the retry loop and what follows it. *)
Definition retry_or_go_on (data : item) (err : option error) (s : SinkNode)
    (w : world) : state :=
  match err with
  | Some e =>
      if IsIOError e then MkState s w (Retrying data e)
      else process_end s w
  | None => process_end s (note [OnSend data] w)
  end.

(** One turn of the loop on the item [d] received from the input. *)
Definition on_input (d : item) (pick : bool) (s : SinkNode) (w : world) : state :=
  match ingest s w d with
  | (Infra.Panics r, s, w) => leave (Infra.Panics r) s w
  | (Infra.Returns (_, true), s, w) => MkState s w Idle
  | (Infra.Returns (data, false), s, w) =>
      let w := note [OnProcessStart data] w in
      let '(k, err) := doCollect (sink s) data in
      let s := set_sink k s in
      match err with
      | Some e =>
          let w := note [OnError e] w in
          match resendOut s with
          | Some _ =>
              match BroadcastCustomized data with
              | Some val =>
                  match resend pick val s w with
                  | (Infra.Returns _, s, w) => process_end s w
                  | (Infra.Panics r, s, w) => leave (Infra.Panics r) s w
                  end
              | None => process_end s w
              end
          | None =>
              if bool_decide (resendInterval s > 0) then
                if negb (IsIOError e) then
                  process_end s
                    (set_logs (Errorf CtxLogger
                       ("no io error " +:+ Error e +:+ ", drop " +:+ GetId data)
                       (logs w)) w)
                else retry_or_go_on data err s w
              else process_end s w
          end
      | None => process_end s (note [OnSend data] w)
      end
  end.

(** One step of the goroutine.  An event that the [select] the goroutine
    waits in has no ready case for leaves it waiting. *)
Definition step (st : state) (ev : event) : state :=
  let s := node st in
  let w := env st in
  match ev, at_ st with
  | Cancel, _ => MkState s (set_cancelled true w) (at_ st)
  | SelDone, Idle =>
      if cancelled w then leave (Infra.Returns None) s w else st
  | SelInput d pick, Idle => on_input d pick s w
  | SelDone, Retrying _ _ =>
      if cancelled w then leave (Infra.Returns None) s w else st
  | SelTick, Retrying data _ =>
      let '(k, err) := doCollect (sink s) data in
      retry_or_go_on data err (set_sink k s) (note [SetBufferLength] w)
  | _, _ => st
  end.

Definition run (st : state) (evs : list event) : state := foldl step st evs.

(** A state that waits in the retry loop does so on an I/O error, with no
    resend channel and a positive interval. *)
Definition may_retry (st : state) : Prop :=
  forall data e, at_ st = Retrying data e ->
    resendOut (node st) = None /\ resendInterval (node st) > 0 /\
    IsIOError e = true.

(** The start of the goroutine: the connection of the sink, and the reset
    of the EOF counter.  The close is not deferred yet when the drain of
    the connection error is called. *)
Definition start (s : SinkNode) (w : world) : state :=
  let '(k, err) := Connect (sink s) in
  let s := set_sink k s in
  let go w := MkState (set_currentEof 0 s) w Idle in
  match err with
  | Some e =>
      match drain 90 (Some e) (errCh w) w with
      | (Infra.Returns _, w') => go w'
      | (Infra.Panics r, w') => recovered (Infra.Panics r) s w'
      end
  | None => go w
  end.
End Node.

Arguments MkSinkNode {K}.
Arguments name {K}.
Arguments sendError {K}.
Arguments ctrlCh {K}.
Arguments sink {K}.
Arguments eoflimit {K}.
Arguments currentEof {K}.
Arguments resendInterval {K}.
Arguments resendOut {K}.
Arguments set_sink {K}.
Arguments set_currentEof {K}.
Arguments set_resendOut {K}.
Arguments MkState {K}.
Arguments node {K}.
Arguments env {K}.
Arguments at_ {K}.
Arguments ingest {K}.
Arguments buffer_full {K}.
Arguments resend {K}.
Arguments recovered {K}.
Arguments leave {K}.
Arguments process_end {K}.
Arguments retry_or_go_on {K}.
Arguments on_input {K}.
Arguments step {K}.
Arguments run {K}.
Arguments may_retry {K}.
Arguments start {K}.

(** ** A sink to run the node against *)

Definition io_down : error := otherError "io" "connection refused".

(** An error classification: the errors of kind io. *)
Definition is_io (e : error) : bool :=
  match e with
  | otherError kind _ => bool_decide (kind = "io")
  | _ => false
  end.

(** A sink that counts the calls of its collect and fails the first [n] of
    them with an I/O error. *)
Definition failing_first (n : nat) (k : nat) (d : item) : nat * option error :=
  (Datatypes.S k, if bool_decide (k < n)%nat then Some io_down else None).

(** A sink whose every collect fails with [e]. *)
Definition always_failing (e : error) (k : nat) (d : item) : nat * option error :=
  (Datatypes.S k, Some e).

(** A [preprocess] that hands every item on. *)
Definition hand_on (it : item) : item * bool := (it, false).

Definition item_id (it : item) : string :=
  match it with IOther d => d | _ => "" end.

(** A node named sink, with an EOF limit of one, a resend interval and no
    resend channel, over a sink that has collected nothing; its control
    channel is the channel of index 0. *)
Definition retrying_node : SinkNode nat :=
  MkSinkNode "sink" false (Some 0%nat) 0%nat 1 0 100 None.

(** The same node with a resend channel of capacity [n] instead. *)
Definition resending_node (n : nat) : SinkNode nat :=
  MkSinkNode "sink" false (Some 0%nat) 0%nat 1 0 0 (Some (make_chan n)).

(** A world with one error channel of capacity one, nothing logged yet. *)
Definition quiet (cancelled : bool) : world :=
  MkWorld cancelled [make_chan 1] (Some 0%nat) [] [].

(** ** Construction and the collect strategies *)

Global Instance item_eq_dec : EqDecision item.
Proof. solve_decision. Defined.

Global Instance stat_eq_dec : EqDecision stat.
Proof. solve_decision. Defined.

(** The fields of [SinkConf] that [newSinkNode] reads; a duration counts
    nanoseconds. *)
Record SinkConf : Type := MkSinkConf {
  ResendInterval : Z;
  EnableCache : bool;
  ResendAlterQueue : bool;
  MemoryCacheThreshold : Z;
  BufferLength : Z
}.

(** [time.Millisecond] *)
Definition Millisecond : Z := 1000000.

(** The interval [newSinkNode] settles on. *)
Definition retry_interval (sc : SinkConf) (isRetry : bool) : Z :=
  let retry := ResendInterval sc in
  if (EnableCache sc || isRetry) && bool_decide (retry <= 0)
  then 100 * Millisecond   (* default retry interval to 100ms *)
  else retry.

(** The [rOpt.BufferLength] that [newSinkNode] gives to the embedded node:
    the length of the input channel. *)
Definition buffer_length (sc : SinkConf) (isRetry : bool) : Z :=
  if isRetry || (EnableCache sc && negb (ResendAlterQueue sc))
  then MemoryCacheThreshold sc
  else BufferLength sc.

Inductive strategy : Type := BytesCollect | TupleCollect.

Section Build.
Variable K : Type.
(** [newDefaultSinkNode(name, &rOpt)] of the embedded node, by the input
    buffer length it is given: the name, [sendError] and [ctrlCh] it sets. *)
Variable newDefaultSinkNode : string -> Z -> string * bool * option nat.

(** [newSinkNode]: the sink is nil yet. *)
Definition newSinkNode (name : string) (eoflimit : Z) (sc : SinkConf)
    (isRetry : bool) : SinkNode (option K) :=
  let retry := retry_interval sc isRetry in
  let '(nm, se, ch) := newDefaultSinkNode name (buffer_length sc isRetry) in
  MkSinkNode nm se ch None eoflimit 0 retry None.

(** [NewBytesSinkNode]: the node, the strategy it collects with, and the
    error, which is always nil. *)
Definition NewBytesSinkNode (name : string) (sink : K) (eoflimit : Z)
    (sc : SinkConf) (isRetry : bool)
    : SinkNode (option K) * strategy * option error :=
  let n := newSinkNode name eoflimit sc isRetry in
  (set_sink (Some sink) n, BytesCollect, None).

(** [NewTupleSinkNode] *)
Definition NewTupleSinkNode (name : string) (sink : K) (eoflimit : Z)
    (sc : SinkConf) (isRetry : bool)
    : SinkNode (option K) * strategy * option error :=
  let n := newSinkNode name eoflimit sc isRetry in
  (set_sink (Some sink) n, TupleCollect, None).

(** [SetResendOutput] *)
Definition SetResendOutput (output : option (chan item)) (s : SinkNode K)
    : SinkNode K :=
  set_resendOut output s.

(** What a bytes collector is given: the raw tuple received, or a new
    [xsql.RawTuple] holding only the [Rawdata]. *)
Inductive raw_arg : Type :=
| TheRaw (d : item)
| NewRaw (rawdata : string).

(** The collaborators of [bytesCollect]: [Collect] of the
    [api.BytesCollector], whether the dynamic type of an item implements
    [api.RawTuple], and what [%T] prints for it. *)
Variable CollectRaw : K -> raw_arg -> K * option error.
Variable isRawTuple : item -> bool.
Variable TypeName : item -> string.

Definition not_raw (d : item) : error :=
  fmt_Errorf ("expect api.RawTuple data type but got " +:+ TypeName d).

(** [bytesCollect].  A nil interface matches no case of the type switch. *)
Definition bytesCollect (k : K) (data : item) : K * option error :=
  match data with
  | INil => (k, Some (not_raw data))
  | _ =>
      if isRawTuple data then CollectRaw k (TheRaw data)
      else
        match data with
        | IError d => CollectRaw k (NewRaw (Error d))
        | _ => (k, Some (not_raw data))
        end
  end.

(** A decoded message, as [json.Unmarshal] fills it. *)
Variable Msg : Type.

(** What a tuple collector is given: the tuple received, the tuple built
    from a raw tuple and its decoded message, or the tuple built for an
    error text at a time. *)
Inductive tuple_arg : Type :=
| TheTuple (d : item)
| Decoded (d : item) (message : Msg)
| ErrorTuple (text : string) (now : Z).

(** The collaborators of [tupleCollect]: [CollectList] and [Collect] of the
    [api.TupleCollector], the types an item implements, the [Rawdata] of a
    [*xsql.RawTuple], [json.Unmarshal] and [timex.GetNow]. *)
Variable CollectList : K -> item -> K * option error.
Variable CollectTuple : K -> tuple_arg -> K * option error.
Variable isTupleList : item -> bool.
Variable isTuple : item -> bool.
Variable Rawdata : item -> option string.
Variable Unmarshal : string -> Msg * option error.
Variable now : Z.

Definition not_tuple (d : item) : error :=
  fmt_Errorf ("expect tuple data type but got " +:+ TypeName d).

(** [tupleCollect] *)
Definition tupleCollect (k : K) (data : item) : K * option error :=
  match data with
  | INil => (k, Some (not_tuple data))
  | _ =>
      (* Some tuple list type also implements tuple. So need to handle list firstly *)
      if isTupleList data then CollectList k data
      else if isTuple data then CollectTuple k (TheTuple data)
      else
        match Rawdata data with
        | Some raw =>
            match Unmarshal raw with
            | (_, Some err) => (k, Some err)
            | (message, None) => CollectTuple k (Decoded data message)
            end
        | None =>
            match data with
            | IError d => CollectTuple k (ErrorTuple (Error d) now)
            | _ => (k, Some (not_tuple data))
            end
        end
  end.
End Build.

Arguments newSinkNode {K}.
Arguments NewBytesSinkNode {K}.
Arguments NewTupleSinkNode {K}.
Arguments SetResendOutput {K}.
Arguments bytesCollect {K}.
Arguments tupleCollect {K} TypeName {Msg}.

(** How many times the node was closed, by the statistics calls. *)
Fixpoint closes (l : list stat) : nat :=
  match l with
  | [] => O
  | NodeClose :: l => Datatypes.S (closes l)
  | _ :: l => closes l
  end.

(** Whether the goroutine is over. *)
Definition over (p : phase) : bool :=
  match p with
  | Exited _ | Crashed _ => true
  | Idle | Retrying _ _ => false
  end.

(** The error channels are all open. *)
Definition all_open (w : world) : Prop :=
  Forall (fun c => closed c = false) (errchans w).

(** The sink state after [n] more calls of the collect on [data]. *)
Fixpoint collected {K} (doCollect : K -> item -> K * option error)
    (data : item) (n : nat) (k : K) : K :=
  match n with
  | O => k
  | Datatypes.S n => collected doCollect data n (doCollect k data).1
  end.

End Sink.

(** * Properties of package infra *)

Section InfraFacts.
Import Infra.

Lemma deliver_carried {A} (v : A) (c : chan A) :
  carried (deliver v c) = Datatypes.S (carried c).
Proof.
  unfold carried, deliver. case_bool_decide; simpl;
    rewrite !length_app; simpl; lia.
Qed.

Lemma SafeRun_returns {W} (fn : W -> outcome (option error) * W) stack w err w' :
  fn w = (Returns err, w') -> SafeRun fn stack w = (err, w', []).
Proof. intros E. unfold SafeRun. now rewrite E. Qed.

Lemma SafeRun_panics {W} (fn : W -> outcome (option error) * W) stack w r w' :
  fn w = (Panics r, w') ->
  exists lg e, SafeRun fn stack w = (Some e, w', lg) /\
    e = match r with
        | PString x => errors_New x
        | PError x => x
        | x => fmt_Errorf (Sprint_sharp_v x)
        end.
Proof. intros E. unfold SafeRun. rewrite E. simpl. eauto. Qed.

(** C1 (amended): with a nil error [DrainError] logs nothing, but the send
    of the [select] is still tried.  A nil channel, or an
    open one that is full with no receiver waiting, is left as it was; an
    open channel with room or with a waiting receiver is given the nil
    value; on a closed channel the send panics. *)
Theorem DrainError_nil_still_sends caller ctx_set errCh lg :
  drained_logs (DrainError caller ctx_set None errCh lg) = lg /\
  (send_ready errCh = false ->
     DrainError caller ctx_set None errCh lg = Drained lg errCh) /\
  (forall c, errCh = Some c -> closed c = false -> has_room c = true ->
     DrainError caller ctx_set None errCh lg = Drained lg (Some (deliver None c)) /\
     carried (deliver None c) = Datatypes.S (carried c)) /\
  (forall c, errCh = Some c -> closed c = true ->
     DrainError caller ctx_set None errCh lg = DrainPanics lg (PError send_on_closed)).
Proof.
  split; [|split; [|split]].
  - unfold DrainError. destruct errCh as [c|]; [|done].
    destruct (send_ready (Some c)); [|done].
    unfold do_send. now destruct (closed c).
  - intros Hr. unfold DrainError. destruct errCh as [c|]; [|done].
    now rewrite Hr.
  - intros c -> Hc Hroom. split; [|apply deliver_carried].
    unfold DrainError, send_ready, do_send. now rewrite Hc, Hroom.
  - intros c -> Hc. unfold DrainError, send_ready, do_send. now rewrite Hc.
Qed.

(** C4: [SafeRun] turns a panic with a string into the plain error of
    that message, hands on an error a panic carries, formats any other
    payload, and hands on untouched the error of a unit that returns. *)
Theorem SafeRun_converts_panics {W} (fn : W -> outcome (option error) * W)
    (stack : string) (w w' : W) :
  (forall s, fn w = (Panics (PString s), w') ->
     (SafeRun fn stack w).1 = (Some (errors_New s), w') /\
     Error (errors_New s) = s) /\
  (forall e, fn w = (Panics (PError e), w') ->
     (SafeRun fn stack w).1 = (Some e, w')) /\
  (forall r, fn w = (Panics r, w') ->
     (forall s, r ≠ PString s) -> (forall e, r ≠ PError e) ->
     (SafeRun fn stack w).1 = (Some (fmt_Errorf (Sprint_sharp_v r)), w') /\
     Error (fmt_Errorf (Sprint_sharp_v r)) = Sprint_sharp_v r) /\
  (forall err, fn w = (Returns err, w') ->
     SafeRun fn stack w = (err, w', [])).
Proof.
  split; [|split; [|split]].
  - intros s E.
    destruct (SafeRun_panics fn stack w _ w' E) as (lg & e & -> & ->). done.
  - intros e E.
    destruct (SafeRun_panics fn stack w _ w' E) as (lg & e' & -> & ->). done.
  - intros r E Hs He.
    destruct (SafeRun_panics fn stack w _ w' E) as (lg & e' & -> & ->).
    destruct r as [s|e|b|n|g]; [now destruct (Hs s) | now destruct (He e) | done..].
  - intros err E. now apply SafeRun_returns.
Qed.
End InfraFacts.

(** The panics of three units and a unit that fails without panicking. *)
Lemma SafeRun_converts_panics_witness :
  (Infra.SafeRun (fun u : unit => (Infra.Panics (Infra.PString "boom"), u)) "stk" tt).1
    = (Some (errorString "boom"), tt) /\
  (Infra.SafeRun (fun u : unit => (Infra.Panics (Infra.PError (otherError "io" "down")), u)) "stk" tt).1
    = (Some (otherError "io" "down"), tt) /\
  (Infra.SafeRun (fun u : unit => (Infra.Panics (Infra.PInt 42), u)) "stk" tt).1
    = (Some (errorString "42"), tt) /\
  Infra.SafeRun (fun u : unit => (Infra.Returns (Some (eofError "done")), u)) "stk" tt
    = (Some (eofError "done"), tt, []).
Proof.
  split; [|split; [|split]].
  - pose proof (SafeRun_converts_panics
      (fun u : unit => (Infra.Panics (Infra.PString "boom"), u)) "stk" tt tt)
      as (Hs & _).
    apply (Hs "boom" eq_refl).
  - pose proof (SafeRun_converts_panics
      (fun u : unit => (Infra.Panics (Infra.PError (otherError "io" "down")), u))
      "stk" tt tt) as (_ & He & _).
    apply (He _ eq_refl).
  - pose proof (SafeRun_converts_panics
      (fun u : unit => (Infra.Panics (Infra.PInt 42), u)) "stk" tt tt)
      as (_ & _ & Ho & _).
    apply (Ho (Infra.PInt 42) eq_refl); discriminate.
  - pose proof (SafeRun_converts_panics
      (fun u : unit => (Infra.Returns (Some (eofError "done")), u)) "stk" tt tt)
      as (_ & _ & _ & Hr).
    apply (Hr _ eq_refl).
Defined.

(** On an empty channel of capacity one the nil error is buffered: the
    call is not a no-op. *)
Lemma DrainError_nil_counterexample :
  Infra.DrainError ("sink_node.go", 155) true None (Some (make_chan 1)) []
    = Infra.Drained [] (Some (Chan 1 [None] 0 [] false)) /\
  buf (Chan 1 [None : option error] 0 [] false) ≠ buf (make_chan 1).
Proof. split; [reflexivity | discriminate]. Qed.

Lemma DrainError_nil_still_sends_witness :
  Infra.DrainError ("sink_node.go", 155) true None (Some (Chan 0 [] 0 [] false)) []
    = Infra.Drained [] (Some (Chan 0 [] 0 [] false)) /\
  Infra.DrainError ("sink_node.go", 155) true None (Some (Chan 0 [] 1 [] false)) []
    = Infra.Drained [] (Some (Chan 0 [] 0 [None] false)) /\
  Infra.DrainError ("sink_node.go", 155) true None (Some (Chan 1 [] 0 [] true)) []
    = Infra.DrainPanics [] (Infra.PError send_on_closed).
Proof.
  split; [|split].
  - pose proof (DrainError_nil_still_sends ("sink_node.go", 155) true
      (Some (Chan 0 [] 0 [] false)) []) as (_ & Hfull & _).
    apply Hfull. reflexivity.
  - pose proof (DrainError_nil_still_sends ("sink_node.go", 155) true
      (Some (Chan 0 [] 1 [] false)) []) as (_ & _ & Hroom & _).
    apply (Hroom _ eq_refl); reflexivity.
  - pose proof (DrainError_nil_still_sends ("sink_node.go", 155) true
      (Some (Chan 1 [] 0 [] true)) []) as (_ & _ & _ & Hclosed).
    apply (Hclosed _ eq_refl). reflexivity.
Defined.
(** * Properties of the analytic functions *)

(** ** Stepping through a function body *)

Section AnalyticSteps.
Import Analytic.
Context {S : Type} `{FunctionContext S}.

Local Arguments index : simpl never.
Local Arguments call : simpl never.
Local Arguments len : simpl never.
Local Arguments peek : simpl never.
Local Arguments fetch : simpl never.
Local Arguments fill : simpl never.
Local Arguments append : simpl never.

Lemma len_call pos v k : len (call pos v k) = Z.of_nat (length pos) + 2.
Proof. unfold len, call. rewrite length_app. simpl. lia. Qed.

Lemma index_nat (args : list value) (n : nat) (x : value) (w : world S) :
  args !! n = Some x -> index args (Z.of_nat n) w = (inl x, w).
Proof.
  intros E. unfold index. rewrite bool_decide_eq_true_2 by lia.
  now rewrite Nat2Z.id, E.
Qed.

Lemma index_head x rest (w : world S) : index (x :: rest) 0 w = (inl x, w).
Proof. apply (index_nat _ 0%nat). reflexivity. Qed.

Lemma index_call_valid pos v k (w : world S) :
  index (call pos v k) (len (call pos v k) - 2) w = (inl v, w).
Proof.
  rewrite len_call.
  replace (Z.of_nat (length pos) + 2 - 2) with (Z.of_nat (length pos)) by lia.
  apply index_nat. unfold call. rewrite lookup_app_r by lia.
  now rewrite Nat.sub_diag.
Qed.

Lemma index_call_key pos v k (w : world S) :
  index (call pos v k) (len (call pos v k) - 1) w = (inl k, w).
Proof.
  rewrite len_call.
  replace (Z.of_nat (length pos) + 2 - 1)
    with (Z.of_nat (Datatypes.S (length pos))) by lia.
  apply index_nat. unfold call. rewrite lookup_app_r by lia.
  now replace (Datatypes.S (length pos) - length pos)%nat with 1%nat by lia.
Qed.

Lemma index_call_pos pos v k (n : nat) x (w : world S) :
  pos !! n = Some x -> index (call pos v k) (Z.of_nat n) w = (inl x, w).
Proof.
  intros E. apply index_nat. unfold call. now apply lookup_app_l_Some.
Qed.

Lemma index_call_0 x pos v k (w : world S) :
  index (call (x :: pos) v k) 0 w = (inl x, w).
Proof. apply (index_call_pos _ _ _ 0%nat). reflexivity. Qed.

Lemma index_call_1 x y pos v k (w : world S) :
  index (call (x :: y :: pos) v k) 1 w = (inl y, w).
Proof. apply (index_call_pos _ _ _ 1%nat). reflexivity. Qed.

Lemma index_call_2 x y z pos v k (w : world S) :
  index (call (x :: y :: z :: pos) v k) 2 w = (inl z, w).
Proof. apply (index_call_pos _ _ _ 2%nat). reflexivity. Qed.

Lemma index_call_3 x y z t pos v k (w : world S) :
  index (call (x :: y :: z :: t :: pos) v k) 3 w = (inl t, w).
Proof. apply (index_call_pos _ _ _ 3%nat). reflexivity. Qed.

Lemma peek_at (s : S) h p q :
  h !! p = Some q -> peek (Some p) (World s h) = (inl (rq_peek q), World s h).
Proof. intros E. unfold peek, deref, mbind, M_bind. cbn [heap]. now rewrite E. Qed.

Lemma fetch_at (s : S) h p q :
  h !! p = Some q -> fetch (Some p) (World s h) = (inl (rq_fetch q), World s h).
Proof. intros E. unfold fetch, deref, mbind, M_bind. cbn [heap]. now rewrite E. Qed.

Lemma fill_at (s : S) h p q d :
  h !! p = Some q ->
  fill (Some p) d (World s h) = (inl (), World s (<[p := rq_fill d q]> h)).
Proof. intros E. unfold fill, deref, mbind, M_bind. cbn [heap]. now rewrite E. Qed.

Lemma append_at (s : S) h p q v :
  h !! p = Some q ->
  append (Some p) v (World s h)
    = (inl (rq_append v q).1, World s (<[p := (rq_append v q).2]> h)).
Proof.
  intros E. unfold append, deref, mbind, M_bind. cbn [heap]. rewrite E.
  now destruct (rq_append v q).
Qed.

Lemma lookup_fresh (h : list ringqueue) q : (h ++ [q]) !! length h = Some q.
Proof. rewrite lookup_app_r by lia. now rewrite Nat.sub_diag. Qed.

Lemma insert_fresh (h : list ringqueue) q q' : <[length h := q']> (h ++ [q]) = h ++ [q'].
Proof. rewrite insert_app_r_alt by lia. now rewrite Nat.sub_diag. Qed.

End AnalyticSteps.

Import Analytic.

Ltac mstep :=
  first [ rewrite index_call_valid | rewrite index_call_key
        | rewrite index_call_0 | rewrite index_call_1
        | rewrite index_call_2 | rewrite index_call_3
        | rewrite index_head ];
  cbn.

Ltac mstart := unfold exec, mbind, M_bind.

(** Settles the test on the number of arguments that is next. *)
Ltac mtest :=
  first [ rewrite bool_decide_eq_true_2 by (rewrite ?len_call; cbn; lia)
        | rewrite bool_decide_eq_false_2 by (rewrite ?len_call; cbn; lia) ];
  cbn.


Section AnalyticFacts.
Import Analytic.
Context {S : Type} `{FunctionContext S}.
Variable ToInt : value -> Z * option error.

Local Arguments index : simpl never.
Local Arguments call : simpl never.
Local Arguments len : simpl never.
Local Arguments peek : simpl never.
Local Arguments fetch : simpl never.
Local Arguments fill : simpl never.
Local Arguments append : simpl never.

(** C2 (amended): [changed_col] called with [ignoreNull] true and a nil
    value returns nil with [true], and leaves the state store and the heap
    as they were, whatever the other arguments are; with a false validity
    flag (and a boolean first argument) it returns nil with [true] the same
    way and changes nothing; when the first argument is not a boolean the
    error comes back with [false], with nothing changed either. *)
Theorem changed_col_noop (w : world S) :
  (forall more valid key,
     exec (changed_col (call (VBool true :: VNil :: more) valid key)) w
       = (Infra.Returns (Plain VNil, true), w)) /\
  (forall ignoreNull v more key,
     exec (changed_col (call (VBool ignoreNull :: v :: more) (VBool false) key)) w
       = (Infra.Returns (Plain VNil, true), w)) /\
  (forall a0 v more key,
     as_bool a0 = None ->
     exec (changed_col (call (a0 :: v :: more) (VBool false) key)) w
       = (Infra.Returns (Plain (VErr (not_bool_first a0)), false), w)).
Proof.
  split; [|split].
  - intros more valid key. unfold changed_col. mstart. mstep. now mstep.
  - intros ig v more key. unfold changed_col. mstart. mstep.
    destruct ig; cbn.
    + mstep. destruct v; cbn; try reflexivity; now mstep.
    + now mstep.
  - intros a0 v more key E. unfold changed_col. mstart. mstep. now rewrite E.
Qed.

(** C5 (amended): a boolean argument that is not boolean-typed yields an
    error with [false], and no panic, wherever the function comes to look at
    it: [changed_col] at its first argument, and at the validity flag unless
    [ignoreNull] is true and the value nil; [had_changed] at the validity
    flag, and at its first argument when the validity flag is true; [lag]
    (1 to 4 positional arguments, a string key) at the validity flag and at
    its fourth argument; [latest] (1 or 2 positional arguments, a string
    key) at the validity flag.  The state is left as it was. *)
Theorem boolean_arguments_checked (w : world S) :
  (forall a0 rest,
     as_bool a0 = None ->
     exec (changed_col (a0 :: rest)) w
       = (Infra.Returns (Plain (VErr (not_bool_first a0)), false), w)) /\
  (forall ignoreNull v more valid key,
     as_bool valid = None -> ignoreNull && is_nil v = false ->
     exec (changed_col (call (VBool ignoreNull :: v :: more) valid key)) w
       = (Infra.Returns (Plain (VErr (not_bool_when valid)), false), w)) /\
  (forall a0 v more valid key,
     as_bool valid = None ->
     exec (had_changed (call (a0 :: v :: more) valid key)) w
       = (Infra.Returns (Plain (VErr (not_bool_when valid)), false), w)) /\
  (forall a0 v more key,
     as_bool a0 = None ->
     exec (had_changed (call (a0 :: v :: more) (VBool true) key)) w
       = (Infra.Returns (Plain (VErr (not_bool_first a0)), false), w)) /\
  (forall pos valid key,
     as_bool valid = None -> (1 <= length pos <= 4)%nat ->
     exists e, exec (lag ToInt (call pos valid (VStr key))) w
       = (Infra.Returns (Plain (VErr e), false), w)) /\
  (forall v size dflt a3 validData key,
     as_bool a3 = None ->
     exists e, exec (lag ToInt (call [v; size; dflt; a3] (VBool validData) (VStr key))) w
       = (Infra.Returns (Plain (VErr e), false), w)) /\
  (forall pos valid key,
     as_bool valid = None -> (1 <= length pos <= 2)%nat ->
     exec (latest (call pos valid (VStr key))) w
       = (Infra.Returns (Plain (VErr (not_bool_when valid)), false), w)).
Proof.
  repeat apply conj.
  - intros a0 rest E. unfold changed_col. mstart.
    mstep. now rewrite E.
  - intros ig v more valid key E Hskip. unfold changed_col. mstart. mstep.
    destruct ig; cbn in *.
    + mstep. rewrite Hskip. mstep. now rewrite E.
    + mstep. now rewrite E.
  - intros a0 v more valid key E. unfold had_changed. mstart.
    rewrite bool_decide_eq_false_2 by (rewrite len_call; cbn; lia).
    mstep. now rewrite E.
  - intros a0 v more key E. unfold had_changed. mstart.
    rewrite bool_decide_eq_false_2 by (rewrite len_call; cbn; lia).
    mstep. mstep. now rewrite E.
  - intros pos valid key E Hlen. unfold lag. mstart.
    rewrite !bool_decide_eq_false_2 by (rewrite len_call; lia).
    cbn. mstep. unfold getState.
    destruct (GetState key (store w)) as [v [e|]]; [eauto|].
    mstep. rewrite E. eauto.
  - intros v size dflt a3 validData key E. unfold lag. mstart.
    rewrite !bool_decide_eq_false_2 by (rewrite len_call; cbn; lia).
    cbn. mstep. unfold getState.
    destruct (GetState key (store w)) as [v0 [e|]]; [eauto|].
    mstep.
    rewrite !bool_decide_eq_true_2 by (rewrite len_call; cbn; lia).
    mstep. destruct (ToInt size) as [n [e|]]; [eauto|].
    cbn. mstep. mstep. rewrite E. mstep. eauto.
  - intros pos valid key E Hlen. unfold latest. mstart.
    assert (bool_decide (len (call pos valid (VStr key)) - 2 ≠ 1)
            && bool_decide (len (call pos valid (VStr key)) - 2 ≠ 2) = false) as ->.
    { rewrite len_call. apply andb_false_iff.
      destruct (decide (length pos = 1%nat)).
      - left. apply bool_decide_eq_false_2. lia.
      - right. apply bool_decide_eq_false_2. lia. }
    mstep. mstep. now rewrite E.
Qed.

Lemma index_cases args i (w : world S) :
  (exists v, index args i w = (inl v, w)) \/
  index args i w = (inr (Infra.Panics (Infra.PError (runtimeError "index out of range"))), w).
Proof.
  unfold index. destruct (bool_decide (0 <= i)); [|now right].
  destruct (args !! Z.to_nat i); [left; eauto | now right].
Qed.

Lemma had_changed_loop_exits ignoreNull key args todo :
  forall result (w w' : world S) r,
    had_changed_loop ignoreNull key args todo result w = (inr r, w') ->
    (exists k e, r = Infra.Returns (Plain (VErr (get_failed k e)), false)) \/
    (exists k e, r = Infra.Returns (Plain (VErr (put_failed k e)), false)) \/
    (exists p, r = Infra.Panics p).
Proof.
  induction todo as [|i todo IH]; intros result w w' r; cbn.
  - discriminate.
  - unfold mbind, M_bind.
    destruct (index_cases args (Z.of_nat i) w) as [[v ->] | ->].
    + destruct (ignoreNull && is_nil v); [apply IH|].
      unfold getState.
      destruct (GetState (key +:+ Itoa (Z.of_nat i)) (store w)) as [lv [e|]].
      * intros [= <- <-]. left. eauto.
      * destruct (negb (DeepEqual v lv)); [|apply IH].
        unfold putState.
        destruct (PutState (key +:+ Itoa (Z.of_nat i)) (Plain v) (store w)) as [s' [e|]].
        -- intros [= <- <-]. right. left. eauto.
        -- apply IH.
    + intros [= <- <-]. right. right. eauto.
Qed.

Lemma arity_is_no_state_error n k e :
  arity_more_than_one n ≠ get_failed k e /\ arity_more_than_one n ≠ put_failed k e /\
  (forall v, arity_more_than_one n ≠ not_bool_when v) /\
  (forall v, arity_more_than_one n ≠ not_bool_first v).
Proof.
  unfold arity_more_than_one, get_failed, put_failed, not_bool_when,
    not_bool_first, fmt_Errorf.
  repeat split; try intros v; cbn; discriminate.
Qed.

Section Validation.
Variable Expr : Type.
Variables IsNumericArg IsTimeArg IsStringArg : Expr -> bool.
Variable ProduceErrInfo : Z -> string -> error.

(** C6 (amended): [had_changed] asks for one value besides the
    [ignoreNull] flag.  A call with none (at most three arguments, the
    validity flag and the key counted) returns the arity error and leaves the
    state as it was, and so does the validation of at most one expression; a
    call with one value or more never returns the arity error, and the
    validation of two expressions or more goes on to the check of the
    flag's type. *)
Theorem had_changed_needs_one_value (w : world S) :
  (forall args,
     len args - 2 <= 1 ->
     exec (had_changed args) w
       = (Infra.Returns (Plain (VErr (arity_more_than_one (len args))), false), w)) /\
  (forall exprs,
     (length exprs <= 1)%nat ->
     had_changed_val Expr IsNumericArg IsTimeArg IsStringArg ProduceErrInfo exprs
       = Infra.Returns (Some (arity_more_than_one (Z.of_nat (length exprs))))) /\
  (forall a0 v more valid key n,
     (exec (had_changed (call (a0 :: v :: more) valid key)) w).1
       ≠ Infra.Returns (Plain (VErr (arity_more_than_one n)), false)) /\
  (forall a0 a1 more,
     had_changed_val Expr IsNumericArg IsTimeArg IsStringArg ProduceErrInfo
       (a0 :: a1 :: more)
       = Infra.Returns (if IsNumericArg a0 || IsTimeArg a0 || IsStringArg a0
                        then Some (ProduceErrInfo 0 "bool") else None)).
Proof.
  repeat apply conj.
  - intros args Hl. unfold had_changed. mstart.
    now rewrite bool_decide_eq_true_2 by done.
  - intros exprs Hl. unfold had_changed_val.
    now rewrite bool_decide_eq_true_2 by lia.
  - intros a0 v more valid key n. unfold had_changed. mstart.
    rewrite bool_decide_eq_false_2 by (rewrite len_call; cbn; lia).
    mstep. destruct (arity_is_no_state_error n "" (errorString "")) as (_ & _ & Hw & Hf).
    destruct (as_bool valid) as [[|]|]; cbn;
      [| discriminate | intros [= E]; now apply (Hw valid)].
    mstep. destruct (as_bool a0) as [ig|]; cbn;
      [| intros [= E]; now apply (Hf a0)].
    mstep. destruct key; cbn; try discriminate.
    destruct (had_changed_loop ig s _ _ false w) as [[r|o] w1] eqn:El; cbn;
      [discriminate|].
    apply had_changed_loop_exits in El as [(k & e & ->) | [(k & e & ->) | (p & ->)]];
      [| | discriminate]; intros [= E];
      now apply (arity_is_no_state_error n k e).
  - intros a0 a1 more. unfold had_changed_val.
    rewrite bool_decide_eq_false_2 by (cbn; lia). cbn.
    now destruct (IsNumericArg a0 || IsTimeArg a0 || IsStringArg a0).
Qed.
End Validation.

(** The loop of [had_changed] over two runs of indexes, one after the
    other. *)
Lemma had_changed_loop_app ignoreNull key args todo1 todo2 :
  forall result (w : world S),
    had_changed_loop ignoreNull key args (todo1 ++ todo2) result w
      = match had_changed_loop ignoreNull key args todo1 result w with
        | (inl r, w1) => had_changed_loop ignoreNull key args todo2 r w1
        | (inr o, w1) => (inr o, w1)
        end.
Proof.
  induction todo1 as [|i todo1 IH]; intros result w; [done|].
  cbn [app had_changed_loop]. unfold mbind, M_bind.
  destruct (index_cases args (Z.of_nat i) w) as [[v ->] | ->]; [|done].
  destruct (ignoreNull && is_nil v); [apply IH|].
  unfold getState.
  destruct (GetState (key +:+ Itoa (Z.of_nat i)) (store w)) as [lv [e|]]; [done|].
  destruct (negb (DeepEqual v lv)); [|apply IH].
  unfold putState.
  destruct (PutState (key +:+ Itoa (Z.of_nat i)) (Plain v) (store w)) as [s' [e|]];
    [done | apply IH].
Qed.

(** [had_changed] with a boolean first argument and a true validity flag,
    seen from one of its tracked values: the loop over the values before
    it, then over this value and the ones after it. *)
Lemma had_changed_at ignoreNull before v after key (w : world S) :
  let args := call (VBool ignoreNull :: before ++ v :: after) (VBool true) (VStr key) in
  args !! Datatypes.S (length before) = Some v /\
  exec (had_changed args) w
    = match had_changed_loop ignoreNull key args (seq 1 (length before)) false w with
      | (inl r, w1) =>
          match had_changed_loop ignoreNull key args
                  (Datatypes.S (length before)
                   :: seq (2 + length before) (length after)) r w1 with
          | (inl r', w') => (Infra.Returns (Plain (VBool r'), true), w')
          | (inr o, w') => (o, w')
          end
      | (inr o, w1) => (o, w1)
      end.
Proof.
  intros args. split.
  { unfold args, call. apply lookup_app_l_Some.
    exact (list_lookup_middle before after v (length before) eq_refl). }
  assert (len args - 2 = Z.of_nat (2 + length before + length after)) as Hlen.
  { unfold args. rewrite len_call. cbn [length]. rewrite length_app. cbn. lia. }
  remember (Datatypes.S (length before) :: seq (2 + length before) (length after))
    as todo2 eqn:Etodo.
  unfold had_changed. mstart. rewrite Hlen.
  rewrite bool_decide_eq_false_2 by lia.
  rewrite <- Hlen. unfold args at 1 2. mstep. unfold args at 1. mstep.
  unfold args at 1 2. mstep. fold args. rewrite Hlen.
  replace (Z.to_nat (Z.of_nat (2 + length before + length after)) - 1)%nat
    with (length before + Datatypes.S (length after))%nat by lia.
  rewrite seq_app, had_changed_loop_app.
  change (seq (1 + length before) (Datatypes.S (length after)))
    with (Datatypes.S (length before) :: seq (2 + length before) (length after)).
  rewrite <- Etodo.
  destruct (had_changed_loop ignoreNull key args (seq 1 (length before)) false w)
    as [[r|o] w1]; [|done].
  now destruct (had_changed_loop ignoreNull key args todo2 r w1) as [[r'|o] w'].
Qed.

(** C10: [latest] called with a value that is not nil and a true validity
    flag, with or without a default, returns that value with [true]
    whatever [PutState] answers, its error included.  The other three
    functions return the error of a failing [PutState] with [false] (wrapped
    with the key by [had_changed] and [lag]) at every place where they
    write: [changed_col] at its one write; [had_changed] at the write of any
    of its tracked values, whatever the values before it did; [lag], called
    with any number [cnt] of its three optional arguments, at the write of
    the first call for a key, at the write that follows the append when a
    queue is stored already, and at that second write on the first call. *)
Theorem latest_discards_put_error (w : world S) (key : string) :
  (forall v (dflt : option value),
     v ≠ VNil ->
     exec (latest (call (v :: option_list dflt) (VBool true) (VStr key))) w
       = (Infra.Returns (Plain v, true),
          World (PutState key (Plain v) (store w)).1 (heap w))) /\
  (forall ignoreNull v lv s' e,
     ignoreNull && is_nil v = false ->
     GetState key (store w) = (lv, None) ->
     DeepEqual v lv = false ->
     PutState key (Plain v) (store w) = (s', Some e) ->
     exec (changed_col (call [VBool ignoreNull; v] (VBool true) (VStr key))) w
       = (Infra.Returns (Plain (VErr e), false), World s' (heap w))) /\
  (forall ignoreNull before v after changed w1 lv s' e,
     let args := call (VBool ignoreNull :: before ++ v :: after) (VBool true) (VStr key) in
     let k := key +:+ Itoa (Z.of_nat (Datatypes.S (length before))) in
     had_changed_loop ignoreNull key args (seq 1 (length before)) false w
       = (inl changed, w1) ->
     ignoreNull && is_nil v = false ->
     GetState k (store w1) = (lv, None) ->
     DeepEqual v lv = false ->
     PutState k (Plain v) (store w1) = (s', Some e) ->
     exec (had_changed args) w
       = (Infra.Returns (Plain (VErr (put_failed k e)), false), World s' (heap w1))) /\
  (forall v size dflt ign (cnt : nat) valid n s' e,
     (cnt <= 3)%nat -> ((1 <= cnt)%nat -> ToInt size = (n, None)) ->
     GetState key (store w) = (Plain VNil, None) ->
     PutState key (RqPtr (length (heap w))) (store w) = (s', Some e) ->
     (exec (lag ToInt (call (v :: take cnt [size; dflt; VBool ign])
                         (VBool valid) (VStr key))) w).1
       = Infra.Returns (Plain (VErr (put_failed key e)), false)) /\
  (forall v size dflt ign (cnt : nat) n p q s' e,
     (cnt <= 3)%nat -> ((1 <= cnt)%nat -> ToInt size = (n, None)) ->
     GetState key (store w) = (RqPtr p, None) -> heap w !! p = Some q ->
     (cnt = 3%nat /\ ign = false) \/ v ≠ VNil ->
     PutState key (RqPtr p) (store w) = (s', Some e) ->
     (exec (lag ToInt (call (v :: take cnt [size; dflt; VBool ign])
                         (VBool true) (VStr key))) w).1
       = Infra.Returns (Plain (VErr (put_failed key e)), false)) /\
  (forall v size dflt ign (cnt : nat) n s1 s' e,
     (cnt <= 3)%nat -> ((1 <= cnt)%nat -> ToInt size = (n, None)) ->
     GetState key (store w) = (Plain VNil, None) ->
     (cnt = 3%nat /\ ign = false) \/ v ≠ VNil ->
     PutState key (RqPtr (length (heap w))) (store w) = (s1, None) ->
     PutState key (RqPtr (length (heap w))) s1 = (s', Some e) ->
     (exec (lag ToInt (call (v :: take cnt [size; dflt; VBool ign])
                         (VBool true) (VStr key))) w).1
       = Infra.Returns (Plain (VErr (put_failed key e)), false)).
Proof.
  repeat apply conj.
  - intros v dflt Hv. unfold latest. mstart.
    assert (bool_decide (len (call (v :: option_list dflt) (VBool true) (VStr key)) - 2 ≠ 1)
            && bool_decide (len (call (v :: option_list dflt) (VBool true) (VStr key)) - 2 ≠ 2)
            = false) as ->.
    { rewrite len_call. apply andb_false_iff.
      destruct dflt as [d|].
      - right. apply bool_decide_eq_false_2. cbn. lia.
      - left. apply bool_decide_eq_false_2. cbn. lia. }
    mstep. mstep. mstep.
    assert (is_nil v = false) as -> by now destruct v.
    cbn. mstep. unfold putState.
    now destruct (PutState key (Plain v) (store w)) as [s' e].
  - intros ig v lv s' e Hskip Hg Hd Hp. unfold changed_col. mstart. mstep.
    destruct ig; cbn in *.
    + mstep. rewrite Hskip. mstep. mstep. unfold getState. rewrite Hg. mstep.
      rewrite Hd. cbn. unfold putState. now rewrite Hp.
    + mstep. mstep. unfold getState. rewrite Hg. mstep.
      rewrite Hd. cbn. unfold putState. now rewrite Hp.
  - intros ig before v after changed w1 lv s' e args k Hbefore Hskip Hg Hd Hp.
    pose proof (had_changed_at ig before v after key w) as Hat.
    cbv zeta in Hat. destruct Hat as (Hv & Hexec).
    subst args k. rewrite Hexec, Hbefore.
    cbn [had_changed_loop]. unfold mbind, M_bind.
    rewrite (index_nat _ _ _ _ Hv), Hskip.
    unfold getState. rewrite Hg, Hd. cbn.
    unfold putState. now rewrite Hp.
  - intros v size dflt ign cnt valid n s' e Hc Hn Hg Hp.
    destruct w as [s h]. cbn [store heap] in *.
    destruct cnt as [|[|[|[|cnt]]]]; [| | | | lia]; cbn [take];
      first [specialize (Hn ltac:(lia)) | clear Hn]; unfold lag; mstart;
      repeat first [ mstep | mtest | rewrite Hn; cbn
                   | progress (unfold getState; cbn [store]; rewrite Hg) ];
      rewrite bool_decide_eq_true_2 by done;
      unfold newRingqueue; cbn beta iota;
      rewrite (fill_at _ _ _ _ _ (lookup_fresh _ _));
      unfold putState; cbn [store heap length app]; now rewrite Hp.
  - intros v size dflt ign cnt n p q s' e Hc Hn Hg Hh Hadv Hp.
    destruct w as [s h]. cbn [store heap] in *.
    assert (cnt = 3%nat -> negb ign || negb (is_nil v) = true) as Hgo3.
    { intros ->. destruct Hadv as [[_ ->] | Hv]; [done|].
      destruct v; try done; apply orb_true_r. }
    assert ((cnt < 3)%nat -> negb (is_nil v) = true) as Hgo.
    { intros Hlt. destruct Hadv as [[-> _] | Hv]; [lia|]. now destruct v. }
    destruct cnt as [|[|[|[|cnt]]]]; [| | | | lia]; cbn [take];
      first [specialize (Hn ltac:(lia)) | clear Hn];
      first [specialize (Hgo ltac:(lia)) | clear Hgo];
      first [specialize (Hgo3 eq_refl) | clear Hgo3]; unfold lag; mstart;
      repeat first [ mstep | mtest | rewrite Hn; cbn
                   | progress (unfold getState; cbn [store]; rewrite Hg) ];
      rewrite bool_decide_eq_false_2 by done; cbn;
      rewrite (peek_at _ _ _ _ Hh);
      destruct (rq_peek q) as [old ok] eqn:Ep; cbn;
      mstep; try rewrite Hgo; try rewrite Hgo3; cbn;
      rewrite (fetch_at _ _ _ _ Hh); unfold rq_fetch; rewrite Ep; cbn;
      rewrite (append_at _ _ _ _ _ Hh); cbn;
      unfold putState; cbn [store heap]; now rewrite Hp.
  - intros v size dflt ign cnt n s1 s' e Hc Hn Hg Hadv Hp1 Hp2.
    destruct w as [s h]. cbn [store heap] in *.
    assert (cnt = 3%nat -> negb ign || negb (is_nil v) = true) as Hgo3.
    { intros ->. destruct Hadv as [[_ ->] | Hv]; [done|].
      destruct v; try done; apply orb_true_r. }
    assert ((cnt < 3)%nat -> negb (is_nil v) = true) as Hgo.
    { intros Hlt. destruct Hadv as [[-> _] | Hv]; [lia|]. now destruct v. }
    destruct cnt as [|[|[|[|cnt]]]]; [| | | | lia]; cbn [take];
      first [specialize (Hn ltac:(lia)) | clear Hn];
      first [specialize (Hgo ltac:(lia)) | clear Hgo];
      first [specialize (Hgo3 eq_refl) | clear Hgo3]; unfold lag; mstart;
      repeat first [ mstep | mtest | rewrite Hn; cbn
                   | progress (unfold getState; cbn [store]; rewrite Hg) ];
      rewrite bool_decide_eq_true_2 by done;
      unfold newRingqueue; cbn beta iota;
      rewrite (fill_at _ _ _ _ _ (lookup_fresh _ _)), insert_fresh;
      unfold putState; cbn [store heap length app]; rewrite Hp1; cbn;
      rewrite (peek_at _ _ _ _ (lookup_fresh _ _));
      match goal with
      | |- context [rq_peek ?q0] => destruct (rq_peek q0) as [old ok] eqn:Ep
      end; cbn;
      mstep; try rewrite Hgo; try rewrite Hgo3; cbn;
      rewrite (fetch_at _ _ _ _ (lookup_fresh _ _)); unfold rq_fetch; rewrite Ep; cbn;
      rewrite (append_at _ _ _ _ _ (lookup_fresh _ _)), insert_fresh; cbn;
      now rewrite Hp2.
Qed.
End AnalyticFacts.

(** ** [lag] over the store kept in memory *)

Section LagInMemory.
Variable ToInt : value -> Z * option error.

Local Arguments index : simpl never.
Local Arguments call : simpl never.
Local Arguments len : simpl never.
Local Arguments peek : simpl never.
Local Arguments fetch : simpl never.
Local Arguments fill : simpl never.
Local Arguments append : simpl never.

(** The first call for a key: the queue is created on the heap, filled
    with the default, and advanced. *)
Lemma lag_first_call v size n dflt key (m : gmap string stored) h :
  m !! key = None -> ToInt size = (n, None) -> v ≠ VNil ->
  exec (lag ToInt (call [v; size; dflt] (VBool true) (VStr key))) (World m h)
    = (Infra.Returns (Plain (rq_peek (rq_fill dflt (rq_new n))).1, true),
       World (<[key := RqPtr (length h)]> m)
             (h ++ [(rq_append v (rq_fill dflt (rq_new n))).2])).
Proof.
  intros Hm Hn Hv. unfold lag. mstart.
  mtest. mtest. mstep. unfold getState. cbn. rewrite Hm. cbn.
  mstep. mtest. mstep. rewrite Hn. cbn. mtest. mstep. mtest.
  rewrite bool_decide_eq_true_2 by done.
  unfold newRingqueue. cbn beta iota.
  rewrite (fill_at _ _ _ _ _ (lookup_fresh _ _)), insert_fresh.
  unfold putState. cbn.
  rewrite (peek_at _ _ _ _ (lookup_fresh _ _)).
  destruct (rq_peek (rq_fill dflt (rq_new n))) as [old ok] eqn:Ep. cbn.
  mstep. assert (is_nil v = false) as -> by now destruct v.
  cbn. rewrite (fetch_at _ _ _ _ (lookup_fresh _ _)).
  unfold rq_fetch. rewrite Ep. cbn.
  rewrite (append_at _ _ _ _ _ (lookup_fresh _ _)), insert_fresh. cbn.
  now rewrite insert_insert_eq.
Qed.

(** A later call: the oldest value is returned, and the queue advanced in
    place. *)
Lemma lag_next_call v size n dflt key (m : gmap string stored) h p q :
  m !! key = Some (RqPtr p) -> h !! p = Some q ->
  ToInt size = (n, None) -> v ≠ VNil ->
  exec (lag ToInt (call [v; size; dflt] (VBool true) (VStr key))) (World m h)
    = (Infra.Returns (Plain (rq_peek q).1, true),
       World (<[key := RqPtr p]> m) (<[p := (rq_append v q).2]> h)).
Proof.
  intros Hm Hh Hn Hv. unfold lag. mstart.
  mtest. mtest. mstep. unfold getState. cbn. rewrite Hm. cbn.
  mstep. mtest. mstep. rewrite Hn. cbn. mtest. mstep. mtest.
  rewrite bool_decide_eq_false_2 by done. cbn.
  rewrite (peek_at _ _ _ _ Hh).
  destruct (rq_peek q) as [old ok] eqn:Ep. cbn.
  mstep. assert (is_nil v = false) as -> by now destruct v.
  cbn. rewrite (fetch_at _ _ _ _ Hh).
  unfold rq_fetch. rewrite Ep. cbn.
  now rewrite (append_at _ _ _ _ _ Hh).
Qed.

(** C3: from a state with nothing stored under "k", three calls of [lag]
    with size 2, default 0, a true validity flag and the values 10, 20 and 30
    return 0, 0 and 10; the first call creates the queue filled with the
    default, and each call returns the oldest value and puts the new one in
    its place at the end. *)
Theorem lag_three_calls (m : gmap string stored) (h : list ringqueue) :
  ToInt (VInt 2) = (2, None) -> m !! "k" = None ->
  let lag3 v := exec (lag ToInt (call [VInt v; VInt 2; VInt 0] (VBool true) (VStr "k"))) in
  let after q := World (<["k" := RqPtr (length h)]> m) (h ++ [Ringqueue q]) in
  let r1 := lag3 10 (World m h) in
  let r2 := lag3 20 r1.2 in
  let r3 := lag3 30 r2.2 in
  r1 = (Infra.Returns (Plain (VInt 0), true), after [VInt 0; VInt 10]) /\
  r2 = (Infra.Returns (Plain (VInt 0), true), after [VInt 10; VInt 20]) /\
  r3 = (Infra.Returns (Plain (VInt 10), true), after [VInt 20; VInt 30]).
Proof.
  intros Hn Hm lag3 after r1 r2 r3.
  assert (r1 = (Infra.Returns (Plain (VInt 0), true), after [VInt 0; VInt 10])) as E1.
  { unfold r1, lag3. now rewrite (lag_first_call _ _ 2 _ _ _ _ Hm Hn). }
  assert (forall a b c,
            lag3 c (after [VInt a; VInt b])
            = (Infra.Returns (Plain (VInt a), true), after [VInt b; VInt c])) as Hnext.
  { intros a b c. unfold lag3, after.
    rewrite (lag_next_call _ _ 2 _ _ _ _ (length h) (Ringqueue [VInt a; VInt b])); try done.
    - rewrite insert_insert_eq. cbn. now rewrite insert_fresh.
    - apply lookup_insert_eq.
    - apply lookup_fresh. }
  assert (r2 = (Infra.Returns (Plain (VInt 0), true), after [VInt 10; VInt 20])) as E2.
  { unfold r2. rewrite E1. apply Hnext. }
  repeat split; [done | done |].
  unfold r3. rewrite E2. apply Hnext.
Qed.
End LagInMemory.

(** * Properties of the sink node *)

Section SinkFacts.
Import Sink.
Variable K : Type.
Variable doCollect : K -> item -> K * option error.
Variable preprocess : item -> item * bool.
Variable BroadcastCustomized : item -> option item.
Variable IsIOError : error -> bool.
Variable GetId : item -> string.
Variable Close : K -> K.
Variables file stack : string.

Local Abbreviation ingest := (@Sink.ingest K preprocess file).
Local Abbreviation step :=
  (@Sink.step K doCollect preprocess BroadcastCustomized IsIOError GetId Close file stack).
Local Abbreviation run :=
  (@Sink.run K doCollect preprocess BroadcastCustomized IsIOError GetId Close file stack).
Local Abbreviation drain := (Sink.drain file).

(** [DrainError] touches the records and the channels only. *)
Lemma drain_keeps line err id (w : world) :
  cancelled (drain line err id w).2 = cancelled w /\
  errCh (drain line err id w).2 = errCh w /\
  stats (drain line err id w).2 = stats w.
Proof.
  unfold Sink.drain.
  destruct (Infra.DrainError _ _ _ _ _) as [lg [c|] | lg r];
    destruct id; cbn; done.
Qed.

(** [ingest] changes nothing of the node but the EOF counter, and makes no
    statistics call. *)
Lemma ingest_keeps (s : SinkNode K) w it o s' w' :
  ingest s w it = (o, s', w') ->
  set_currentEof (currentEof s) s' = s /\
  cancelled w' = cancelled w /\ stats w' = stats w /\ errCh w' = errCh w.
Proof.
  unfold Sink.ingest. destruct (preprocess it) as [it' [|]].
  { intros [= <- <- <-]. now destruct s. }
  destruct it' as [|e|ts| |d|x];
    try (intros [= <- <- <-]; now destruct s).
  - destruct (sendError s); intros [= <- <- <-]; now destruct s.
  - cbn. case_bool_decide.
    + pose proof (drain_keeps 188 (Some (NewEOF d)) (ctrlCh s) w) as (Hc & He & Hs).
      destruct (Sink.drain file 188 _ _ w) as [[u|r] w1]; cbn in *;
        intros [= <- <- <-]; now destruct s.
    + intros [= <- <- <-]. now destruct s.
Qed.

(** What the drain of an error does to an open channel with room. *)
Lemma drain_delivers line e i c (w : world) :
  errchans w !! i = Some c -> closed c = false -> has_room c = true ->
  drain line (Some e) (Some i) w
    = (Infra.Returns (),
       set_errchans (<[i := deliver (Some e) c]> (errchans w))
         (set_logs (Errorf CtxLogger
            ("runtime error from " +:+ file +:+ "/l" +:+ Sprint_d line +:+ ": " +:+ Error e)
            (logs w)) w)).
Proof.
  intros Hi Hc Hr. unfold Sink.drain, Infra.DrainError. cbn. rewrite Hi. cbn.
  unfold do_send. now rewrite Hc, Hr.
Qed.

(** C8: what [ingest] does with an item that [preprocess] hands on: an
    error goes on to the collect exactly when [sendError] is set, and is
    dropped otherwise; a watermark and a batch EOF are dropped; an EOF
    increments the counter and is dropped, and the EOF error is drained on
    the control channel exactly when the counter has reached the limit;
    any other item goes on unchanged. *)
Theorem ingest_classifies (s : SinkNode K) (w : world) (it : item) :
  (forall e, preprocess it = (IError e, false) ->
     ingest s w it
       = (Infra.Returns (if sendError s then (IError e, false) else (INil, true)), s, w)) /\
  (forall ts, preprocess it = (IWatermark ts, false) ->
     ingest s w it = (Infra.Returns (INil, true), s, w)) /\
  (preprocess it = (IBatchEOF, false) ->
     ingest s w it = (Infra.Returns (INil, true), s, w)) /\
  (forall d, preprocess it = (IEOF d, false) ->
     let s' := set_currentEof (wrap_int (currentEof s + 1)) s in
     (ingest s w it).1.2 = s' /\
     (eoflimit s ≠ currentEof s' ->
        ingest s w it = (Infra.Returns (INil, true), s', w)) /\
     (eoflimit s = currentEof s' ->
        (ingest s w it).2 = (drain 188 (Some (NewEOF d)) (ctrlCh s) w).2 /\
        ((ingest s w it).1.1 = Infra.Returns (INil, true) \/
         (ingest s w it).1.1 = Infra.Panics (Infra.PError send_on_closed)) /\
        (forall i c, ctrlCh s = Some i -> errchans w !! i = Some c ->
           closed c = false -> has_room c = true ->
           (ingest s w it).1.1 = Infra.Returns (INil, true) /\
           errchans (ingest s w it).2 !! i = Some (deliver (Some (eofError d)) c)))) /\
  (forall x, preprocess it = (x, false) ->
     x = INil \/ (exists data, x = IOther data) ->
     ingest s w it = (Infra.Returns (x, false), s, w)).
Proof.
  repeat apply conj.
  - intros e E. unfold Sink.ingest. rewrite E. now destruct (sendError s).
  - intros ts E. unfold Sink.ingest. now rewrite E.
  - intros E. unfold Sink.ingest. now rewrite E.
  - intros d E s'. unfold Sink.ingest. rewrite E. cbn. fold s'.
    repeat apply conj.
    + case_bool_decide; [|done].
      now destruct (Sink.drain file 188 _ _ w) as [[u|r] w1].
    + intros Hne. now rewrite bool_decide_eq_false_2.
    + intros Heq. rewrite bool_decide_eq_true_2 by done.
      repeat apply conj.
      * now destruct (Sink.drain file 188 _ _ w) as [[u|r] w1].
      * unfold Sink.drain, Infra.DrainError.
        destruct (ctrlCh s ≫= _) as [c|]; cbn; [|now left].
        destruct (closed c || has_room c); [|now left].
        unfold do_send. destruct (closed c); [now right | now left].
      * intros i c Hi Hc Ho Hr. rewrite Hi.
        rewrite (drain_delivers _ _ _ _ _ Hc Ho Hr). cbn. split; [done|].
        apply list_lookup_insert_eq. now apply lookup_lt_Some in Hc.
  - intros x E [-> | [data ->]]; unfold Sink.ingest; now rewrite E.
Qed.

(** Once the goroutine is over, no event changes anything but the flag of
    the context. *)
Lemma run_after_exit (st : state K) evs :
  (forall data e, at_ st ≠ Retrying data e) -> at_ st ≠ Idle ->
  node (run st evs) = node st /\ at_ (run st evs) = at_ st /\
  stats (env (run st evs)) = stats (env st) /\
  logs (env (run st evs)) = logs (env st) /\
  errchans (env (run st evs)) = errchans (env st).
Proof.
  revert st. induction evs as [|ev evs IH]; intros st Hr Hi; [done|].
  unfold Sink.run in *. cbn [foldl].
  assert (Sink.step doCollect preprocess BroadcastCustomized IsIOError GetId
            Close file stack st ev = st \/
          Sink.step doCollect preprocess BroadcastCustomized IsIOError GetId
            Close file stack st ev
            = MkState (node st) (set_cancelled true (env st)) (at_ st)) as [-> | ->].
  { unfold Sink.step.
    destruct ev, (at_ st) eqn:Ea;
      first [ now left | now right | exfalso; congruence
            | exfalso; eapply Hr; eassumption ]. }
  - now apply IH.
  - destruct (IH (MkState (node st) (set_cancelled true (env st)) (at_ st)))
      as (? & ? & ? & ? & ?); done.
Qed.

(** Leaving the loop by [return nil]: the sink and the node are closed, and
    nothing is recovered or drained. *)
Lemma leave_on_return (s : SinkNode K) (w : world) :
  Sink.leave Close file stack (Infra.Returns None) s w
    = MkState (set_sink (Close (sink s)) s) (note [NodeClose] w) (Exited None).
Proof.
  unfold Sink.leave, Sink.recovered, Infra.SafeRun. cbn.
  rewrite app_nil_r. now destruct w.
Qed.

(** C7: with a positive resend interval and no resend channel, a failed
    collect whose error is not an I/O error drops the record (one collect,
    no send) and the loop goes on; an I/O error starts the retry, where each
    tick calls the collect again, and which is left only by a tick whose
    collect succeeds or fails with another kind of error, or by the
    cancellation; the cancellation ends the goroutine, after which no event
    makes the node process anything. *)
Theorem retry_only_on_io_errors (st : state K) :
  resendOut (node st) = None -> resendInterval (node st) > 0 ->
  (forall d pick data s1 w1 k e,
     at_ st = Idle ->
     ingest (node st) (env st) d = (Infra.Returns (data, false), s1, w1) ->
     doCollect (sink s1) data = (k, Some e) ->
     let st' := step st (SelInput d pick) in
     sink (node st') = k /\
     if IsIOError e then
       at_ st' = Retrying data e /\
       stats (env st') = stats (env st) ++ [OnProcessStart data; OnError e]
     else
       at_ st' = Idle /\
       stats (env st') = stats (env st)
         ++ [OnProcessStart data; OnError e; OnProcessEnd; SetBufferLength]) /\
  (forall data e k err,
     at_ st = Retrying data e ->
     doCollect (sink (node st)) data = (k, err) ->
     let st' := step st SelTick in
     sink (node st') = k /\
     match err with
     | None =>
         at_ st' = Idle /\
         stats (env st') = stats (env st)
           ++ [SetBufferLength; OnSend data; OnProcessEnd; SetBufferLength]
     | Some e' =>
         if IsIOError e' then
           at_ st' = Retrying data e' /\
           stats (env st') = stats (env st) ++ [SetBufferLength]
         else
           at_ st' = Idle /\
           stats (env st') = stats (env st)
             ++ [SetBufferLength; OnProcessEnd; SetBufferLength]
     end) /\
  (forall data e ev,
     at_ st = Retrying data e ->
     at_ (step st ev) = Retrying data e /\ sink (node (step st ev)) = sink (node st) \/
     ev = SelTick \/
     ev = SelDone /\ cancelled (env st) = true) /\
  (forall data e evs,
     at_ st = Retrying data e -> cancelled (env st) = true ->
     let st1 := step st SelDone in
     let st' := run st1 evs in
     at_ st1 = Exited None /\
     sink (node st1) = Close (sink (node st)) /\
     stats (env st1) = stats (env st) ++ [NodeClose] /\
     at_ st' = Exited None /\ node st' = node st1 /\
     stats (env st') = stats (env st1)).
Proof.
  intros Hout Hint. repeat apply conj.
  - intros d pick data s1 w1 k e Hi Hing Hcol st'.
    destruct (ingest_keeps _ _ _ _ _ _ Hing) as (Hs1 & _ & Hst & _).
    assert (resendOut s1 = None) as Ho1 by (rewrite <- Hs1 in Hout; exact Hout).
    assert (resendInterval s1 > 0) as Hi1 by (rewrite <- Hs1 in Hint; exact Hint).
    unfold st', Sink.step. rewrite Hi. unfold Sink.on_input.
    rewrite Hing, Hcol. cbn. rewrite Ho1.
    rewrite bool_decide_eq_true_2 by done.
    unfold Sink.retry_or_go_on.
    destruct (IsIOError e); cbn; rewrite Hst, <- ?app_assoc; cbn; done.
  - intros data e k err Hr Hcol st'. unfold st', Sink.step. rewrite Hr, Hcol.
    unfold Sink.retry_or_go_on.
    destruct err as [e'|]; [destruct (IsIOError e')|]; cbn;
      rewrite <- ?app_assoc; cbn; done.
  - intros data e ev Hr. unfold Sink.step. rewrite Hr.
    destruct ev; cbn; try (now left); try (now right; left).
    destruct (cancelled (env st)); [right; right; done | now left].
  - intros data e evs Hr Hc st1 st'.
    assert (st1 = MkState (set_sink (Close (sink (node st))) (node st))
                    (note [NodeClose] (env st)) (Exited None)) as E1.
    { unfold st1, Sink.step. rewrite Hr, Hc. apply leave_on_return. }
    destruct (run_after_exit st1 evs) as (Hn & Ha & Hs & _).
    { rewrite E1. cbn. done. }
    { rewrite E1. cbn. done. }
    fold st' in Hn, Ha, Hs. rewrite Ha, Hn, Hs, E1. cbn. done.
Qed.

(** The resend [select] on an open channel: the record is sent when the
    channel has room and the runtime takes the send; the buffer-full error
    is reported when neither the send nor [ctx.Done()] is ready. *)
Lemma resend_on_open pick val (s : SinkNode K) (w : world) c :
  resendOut s = Some c -> closed c = false ->
  Sink.resend pick val s w
    = (Infra.Returns (),
       if has_room c && (negb (cancelled w) || pick)
       then set_resendOut (Some (deliver val c)) s else s,
       if negb (has_room c) && negb (cancelled w)
       then note [OnError (buffer_full s)] w else w).
Proof.
  intros Ho Hc. unfold Sink.resend, send_ready, do_send. rewrite Ho, Hc. cbn.
  now destruct (has_room c), (cancelled w), pick.
Qed.

(** C9 (amended): when the collect fails and an open resend channel is
    set, the record is offered to it without waiting, and the loop is back
    at its [select] in the same step.  A channel with room takes the record
    (unless the context is cancelled and the runtime takes [ctx.Done()]); a
    full channel with no receiver drops it, and the buffer-full error is
    reported only if the context is not cancelled. *)
Theorem resend_does_not_block (st : state K) (c : chan item) :
  resendOut (node st) = Some c -> closed c = false ->
  forall d pick data s1 w1 k e,
    at_ st = Idle ->
    ingest (node st) (env st) d = (Infra.Returns (data, false), s1, w1) ->
    doCollect (sink s1) data = (k, Some e) ->
    BroadcastCustomized data = Some data ->
    let st' := step st (SelInput d pick) in
    let seen := stats (env st) ++ [OnProcessStart data; OnError e] in
    at_ st' = Idle /\
    (has_room c = false -> cancelled (env st) = false ->
       resendOut (node st') = Some c /\
       stats (env st') = seen
         ++ [OnError (buffer_full s1); OnProcessEnd; SetBufferLength]) /\
    (has_room c = false -> cancelled (env st) = true ->
       resendOut (node st') = Some c /\
       stats (env st') = seen ++ [OnProcessEnd; SetBufferLength]) /\
    (has_room c = true -> cancelled (env st) = false \/ pick = true ->
       resendOut (node st') = Some (deliver data c) /\
       stats (env st') = seen ++ [OnProcessEnd; SetBufferLength]) /\
    (has_room c = true -> cancelled (env st) = true -> pick = false ->
       resendOut (node st') = Some c /\
       stats (env st') = seen ++ [OnProcessEnd; SetBufferLength]).
Proof.
  intros Hout Hopen d pick data s1 w1 k e Hi Hing Hcol Hb st' seen.
  destruct (ingest_keeps _ _ _ _ _ _ Hing) as (Hs1 & Hc1 & Hst & _).
  assert (resendOut s1 = Some c) as Ho1 by (rewrite <- Hs1 in Hout; exact Hout).
  unfold st', seen, Sink.step. rewrite Hi. unfold Sink.on_input.
  rewrite Hing, Hcol. cbn. rewrite Ho1, Hb.
  rewrite (resend_on_open _ _ _ _ c) by done. cbn. rewrite Hc1.
  unfold Sink.process_end.
  destruct (has_room c), (cancelled (env st)), pick; cbn;
    rewrite ?Hst, <- ?app_assoc; cbn; rewrite ?Ho1;
    (split; [done|]); repeat split; intros; try done; by intuition.
Qed.

End SinkFacts.

(** * The theorems at work *)

(** With [ignoreNull] true and a nil value, and with a false validity flag,
    the second result of [changed_col] is [true], not the [false] that
    holds the output back. *)
Lemma changed_col_noop_counterexample :
  (exec (changed_col (call [VBool true; VNil] (VBool true) (VStr "k"))) five_stored).1
    = Infra.Returns (Plain VNil, true) /\
  (exec (changed_col (call [VBool false; VInt 7] (VBool false) (VStr "k"))) five_stored).1
    = Infra.Returns (Plain VNil, true).
Proof. split; reflexivity. Qed.

Lemma changed_col_noop_witness :
  exec (changed_col (call [VBool true; VNil] (VBool true) (VStr "k"))) five_stored
    = (Infra.Returns (Plain VNil, true), five_stored) /\
  exec (changed_col (call [VBool false; VInt 7] (VBool false) (VStr "k"))) five_stored
    = (Infra.Returns (Plain VNil, true), five_stored) /\
  exec (changed_col (call [VInt 1; VInt 7] (VBool false) (VStr "k"))) five_stored
    = (Infra.Returns (Plain (VErr (not_bool_first (VInt 1))), false), five_stored).
Proof.
  pose proof (changed_col_noop five_stored) as (Hnil & Hinvalid & Hfirst).
  split; [|split].
  - apply Hnil.
  - apply Hinvalid.
  - apply Hfirst. reflexivity.
Defined.

Lemma lag_three_calls_witness :
  let lag3 v := exec (lag int_only (call [VInt v; VInt 2; VInt 0] (VBool true) (VStr "k"))) in
  (lag3 10 nothing_stored).1 = Infra.Returns (Plain (VInt 0), true) /\
  (lag3 20 (lag3 10 nothing_stored).2).1 = Infra.Returns (Plain (VInt 0), true) /\
  (lag3 30 (lag3 20 (lag3 10 nothing_stored).2).2).1 = Infra.Returns (Plain (VInt 10), true).
Proof.
  intros lag3.
  pose proof (lag_three_calls int_only ∅ [] eq_refl (lookup_empty _)) as H.
  cbv zeta in H. destruct H as (E1 & E2 & E3).
  unfold lag3, nothing_stored. now rewrite E3, E2, E1.
Defined.

(** [changed_col] does not look at a validity flag that is a string when
    the value is nil and ignored, and [had_changed] does not look at a first
    argument that is a string when the validity flag is false: no error
    comes back. *)
Lemma boolean_arguments_counterexample :
  (exec (changed_col (call [VBool true; VNil] (VStr "yes") (VStr "k"))) nothing_stored).1
    = Infra.Returns (Plain VNil, true) /\
  (exec (had_changed (call [VStr "yes"; VInt 1] (VBool false) (VStr "k"))) nothing_stored).1
    = Infra.Returns (Plain (VBool false), true).
Proof. split; reflexivity. Qed.

Lemma boolean_arguments_checked_witness :
  exec (changed_col [VInt 1; VInt 7; VBool true; VStr "k"]) five_stored
    = (Infra.Returns (Plain (VErr (not_bool_first (VInt 1))), false), five_stored) /\
  exec (changed_col (call [VBool true; VInt 7] (VStr "yes") (VStr "k"))) five_stored
    = (Infra.Returns (Plain (VErr (not_bool_when (VStr "yes"))), false), five_stored) /\
  exec (had_changed (call [VBool true; VInt 7] (VInt 1) (VStr "k"))) five_stored
    = (Infra.Returns (Plain (VErr (not_bool_when (VInt 1))), false), five_stored) /\
  exec (had_changed (call [VNil; VInt 7] (VBool true) (VStr "k"))) five_stored
    = (Infra.Returns (Plain (VErr (not_bool_first VNil)), false), five_stored) /\
  (exists e, exec (lag int_only (call [VInt 7] (VInt 1) (VStr "k"))) five_stored
    = (Infra.Returns (Plain (VErr e), false), five_stored)) /\
  (exists e, exec (lag int_only (call [VInt 7; VInt 1; VNil; VStr "no"] (VBool true) (VStr "k"))) five_stored
    = (Infra.Returns (Plain (VErr e), false), five_stored)) /\
  exec (latest (call [VInt 7] (VStr "yes") (VStr "k"))) five_stored
    = (Infra.Returns (Plain (VErr (not_bool_when (VStr "yes"))), false), five_stored).
Proof.
  pose proof (boolean_arguments_checked int_only five_stored)
    as (H1 & H2 & H3 & H4 & H5 & H6 & H7).
  repeat apply conj.
  - apply H1. reflexivity.
  - apply H2; reflexivity.
  - apply H3. reflexivity.
  - apply H4. reflexivity.
  - apply H5; [reflexivity | cbn; lia].
  - apply H6. reflexivity.
  - apply H7; [reflexivity | cbn; lia].
Defined.

(** One value besides the flag is enough for [had_changed] to evaluate, and
    for its validation to pass. *)
Lemma had_changed_arity_counterexample :
  exec (had_changed (call [VBool true; VInt 5] (VBool true) (VStr "k"))) nothing_stored
    = (Infra.Returns (Plain (VBool true), true),
       World {["k1" := Plain (VInt 5)]} []) /\
  had_changed_val string (fun _ => false) (fun _ => false) (fun _ => false)
    (fun _ _ => errorString "type") ["true"; "temperature"]
    = Infra.Returns None.
Proof. split; reflexivity. Qed.

Lemma had_changed_needs_one_value_witness :
  exec (had_changed (call [VBool true] (VBool true) (VStr "k"))) five_stored
    = (Infra.Returns (Plain (VErr (arity_more_than_one 3)), false), five_stored) /\
  had_changed_val string (fun _ => false) (fun _ => false) (fun _ => false)
    (fun _ _ => errorString "type") ["true"]
    = Infra.Returns (Some (arity_more_than_one 1)).
Proof.
  pose proof (had_changed_needs_one_value string (fun _ => false) (fun _ => false)
                (fun _ => false) (fun _ _ => errorString "type") five_stored)
    as (Hexec & Hval & _).
  split.
  - apply (Hexec (call [VBool true] (VBool true) (VStr "k"))).
    unfold len, call. cbn. lia.
  - apply (Hval ["true"]). cbn. lia.
Defined.

Lemma latest_discards_put_error_witness :
  @exec _ (@latest _ (FailingPut disk_full)
             (call [VInt 7] (VBool true) (VStr "k"))) five_stored
    = (Infra.Returns (Plain (VInt 7), true), five_stored) /\
  @exec _ (@changed_col _ (FailingPut disk_full)
             (call [VBool false; VInt 7] (VBool true) (VStr "k"))) five_stored
    = (Infra.Returns (Plain (VErr disk_full), false), five_stored) /\
  @exec _ (@had_changed _ (FailingPut disk_full)
             (call [VBool false; VNil; VInt 7] (VBool true) (VStr "k"))) five_stored
    = (Infra.Returns (Plain (VErr (put_failed "k2" disk_full)), false), five_stored) /\
  (@exec _ (@lag _ (FailingPut disk_full) int_only
              (call [VInt 7] (VBool false) (VStr "fresh"))) five_stored).1
    = Infra.Returns (Plain (VErr (put_failed "fresh" disk_full)), false) /\
  (@exec _ (@lag _ (FailingPut disk_full) int_only
              (call [VInt 7; VInt 2] (VBool true) (VStr "k"))) queue_stored).1
    = Infra.Returns (Plain (VErr (put_failed "k" disk_full)), false).
Proof.
  pose proof (@latest_discards_put_error _ (FailingPut disk_full) int_only five_stored "k")
    as (Hlatest & Hcol & Hhad & _).
  pose proof (@latest_discards_put_error _ (FailingPut disk_full) int_only five_stored "fresh")
    as (_ & _ & _ & Hfirst & _).
  pose proof (@latest_discards_put_error _ (FailingPut disk_full) int_only queue_stored "k")
    as (_ & _ & _ & _ & Hnext & _).
  repeat apply conj.
  - apply (Hlatest (VInt 7) None). discriminate.
  - apply (Hcol false (VInt 7) (Plain (VInt 5)) _ disk_full); reflexivity.
  - apply (Hhad false [VNil] (VInt 7) [] false five_stored (Plain VNil) _ disk_full);
      reflexivity.
  - apply (Hfirst (VInt 7) VNil VNil true 0%nat false 1 (store five_stored) disk_full);
      [lia | lia | reflexivity | reflexivity].
  - apply (Hnext (VInt 7) (VInt 2) VNil true 1%nat 2 0%nat
             (Ringqueue [VInt 5; VInt 6]) (store queue_stored) disk_full);
      [lia | reflexivity | reflexivity | reflexivity | right; discriminate | reflexivity].
Defined.

Import Sink.

Lemma ingest_classifies_witness :
  let it := Sink.ingest hand_on "sink_node.go" retrying_node (quiet false) in
  it (IError io_down) = (Infra.Returns (INil, true), retrying_node, quiet false) /\
  it (IWatermark 7) = (Infra.Returns (INil, true), retrying_node, quiet false) /\
  it IBatchEOF = (Infra.Returns (INil, true), retrying_node, quiet false) /\
  ((it (IEOF "src")).1.1 = Infra.Returns (INil, true) /\
   errchans (it (IEOF "src")).2 !! 0%nat
     = Some (Chan 1 [Some (eofError "src")] 0 [] false)) /\
  it (IOther "r") = (Infra.Returns (IOther "r", false), retrying_node, quiet false).
Proof.
  intros it. unfold it. split; [|split; [|split; [|split]]].
  - pose proof (ingest_classifies nat hand_on "sink_node.go" retrying_node
                  (quiet false) (IError io_down)) as (H & _).
    apply (H io_down eq_refl).
  - pose proof (ingest_classifies nat hand_on "sink_node.go" retrying_node
                  (quiet false) (IWatermark 7)) as (_ & H & _).
    apply (H 7 eq_refl).
  - pose proof (ingest_classifies nat hand_on "sink_node.go" retrying_node
                  (quiet false) IBatchEOF) as (_ & _ & H & _).
    apply (H eq_refl).
  - pose proof (ingest_classifies nat hand_on "sink_node.go" retrying_node
                  (quiet false) (IEOF "src")) as (_ & _ & _ & H & _).
    destruct (H "src" eq_refl) as (_ & _ & Hlimit).
    destruct (Hlimit eq_refl) as (_ & _ & Hroom).
    apply (Hroom 0%nat (make_chan 1)); reflexivity.
  - pose proof (ingest_classifies nat hand_on "sink_node.go" retrying_node
                  (quiet false) (IOther "r")) as (_ & _ & _ & _ & H).
    apply (H (IOther "r") eq_refl). right. now exists "r".
Defined.

Lemma retry_only_on_io_errors_witness :
  let step := Sink.step (failing_first 2) hand_on Some is_io item_id id "sink_node.go" "" in
  let st1 := step (MkState retrying_node (quiet false) Idle) (SelInput (IOther "r") true) in
  (sink (node st1) = 1%nat /\ at_ st1 = Retrying (IOther "r") io_down /\
   stats (env st1) = [OnProcessStart (IOther "r"); OnError io_down]) /\
  (sink (node (step st1 SelTick)) = 2%nat /\
   at_ (step st1 SelTick) = Retrying (IOther "r") io_down /\
   stats (env (step st1 SelTick))
     = [OnProcessStart (IOther "r"); OnError io_down; SetBufferLength]).
Proof.
  intros step st1. split.
  - pose proof (retry_only_on_io_errors nat (failing_first 2) hand_on Some is_io
                  item_id id "sink_node.go" ""
                  (MkState retrying_node (quiet false) Idle) eq_refl eq_refl)
      as (Hfail & _).
    apply (Hfail (IOther "r") true (IOther "r") retrying_node (quiet false)
             1%nat io_down eq_refl eq_refl eq_refl).
  - pose proof (retry_only_on_io_errors nat (failing_first 2) hand_on Some is_io
                  item_id id "sink_node.go" "" st1 eq_refl eq_refl)
      as (_ & Htick & _).
    apply (Htick (IOther "r") io_down 2%nat (Some io_down) eq_refl eq_refl).
Defined.

(** The resend channel is full, no receiver waits, and the context is
    cancelled: the record is dropped and no buffer-full error is reported. *)
Lemma resend_counterexample :
  let st' := Sink.step (always_failing io_down) hand_on Some is_io item_id id
               "sink_node.go" ""
               (MkState (resending_node 0) (quiet true) Idle)
               (SelInput (IOther "r") true) in
  has_room (make_chan (A:=item) 0) = false /\
  resendOut (node st') = Some (make_chan 0) /\
  stats (env st')
    = [OnProcessStart (IOther "r"); OnError io_down; OnProcessEnd; SetBufferLength].
Proof. repeat split. Qed.

Lemma resend_does_not_block_witness :
  let st' := Sink.step (always_failing io_down) hand_on Some is_io item_id id
               "sink_node.go" ""
               (MkState (resending_node 0) (quiet false) Idle)
               (SelInput (IOther "r") true) in
  at_ st' = Idle /\
  resendOut (node st') = Some (make_chan 0) /\
  stats (env st')
    = [OnProcessStart (IOther "r"); OnError io_down;
       OnError (buffer_full (resending_node 0)); OnProcessEnd; SetBufferLength].
Proof.
  intros st'.
  pose proof (resend_does_not_block nat (always_failing io_down) hand_on Some
                is_io item_id id "sink_node.go" ""
                (MkState (resending_node 0) (quiet false) Idle) (make_chan 0)
                eq_refl eq_refl (IOther "r") true (IOther "r")
                (resending_node 0) (quiet false) 1%nat io_down
                eq_refl eq_refl eq_refl eq_refl) as (Hidle & Hfull & _).
  split; [exact Hidle | exact (Hfull eq_refl eq_refl)].
Defined.

(** * Further properties of package infra *)

Section InfraMore.
Import Infra.

(** [SafeRun] returns nil only for a unit that returned nil without
    panicking, and logs nothing exactly when the unit did not panic. *)
Theorem SafeRun_nil_means_clean {W} (fn : W -> outcome (option error) * W)
    (stack : string) (w : W) :
  ((SafeRun fn stack w).1.1 = None <-> exists w', fn w = (Returns None, w')) /\
  ((SafeRun fn stack w).2 = [] <-> exists err w', fn w = (Returns err, w')).
Proof.
  unfold SafeRun. destruct (fn w) as [[err|r] w'] eqn:E; cbn.
  - split; split.
    + intros ->. eauto.
    + intros (w2 & [= -> _]). done.
    + eauto.
    + done.
  - split; split; try discriminate.
    + intros (w2 & [=]).
    + intros (err & w2 & [=]).
Qed.

(** A non-nil error is logged once whatever the channel is. *)
Lemma DrainError_logs_once caller ctx_set e errCh lg :
  length (drained_logs (DrainError caller ctx_set (Some e) errCh lg))
    = Datatypes.S (length lg).
Proof.
  unfold DrainError, Errorf.
  destruct errCh as [c|]; [destruct (send_ready (Some c));
    [unfold do_send; destruct (closed c)|]|];
    destruct ctx_set; cbn; rewrite length_app; cbn; lia.
Qed.

(** On an open channel [DrainError] returns, the value sent if there is
    room for it. *)
Lemma DrainError_on_open caller ctx_set err (c : chan (option error)) lg :
  closed c = false ->
  exists lg',
    DrainError caller ctx_set err (Some c) lg
      = Drained lg' (Some (if has_room c then deliver err c else c)).
Proof.
  intros Hopen. unfold DrainError, send_ready, do_send. rewrite Hopen. cbn.
  destruct (has_room c); eauto.
Qed.

(** Of two errors drained one after the other on an open channel with one
    free slot and no receiver waiting, the first is buffered and the second
    is dropped; both are logged. *)
Theorem DrainError_first_error_wins caller1 caller2 ctx_set e1 e2
    (c : chan (option error)) lg :
  closed c = false -> recvq c = 0%nat -> cap c = Datatypes.S (length (buf c)) ->
  exists lg1 lg2 c1,
    DrainError caller1 ctx_set (Some e1) (Some c) lg = Drained lg1 (Some c1) /\
    buf c1 = buf c ++ [Some e1] /\
    DrainError caller2 ctx_set (Some e2) (Some c1) lg1 = Drained lg2 (Some c1) /\
    length lg2 = Datatypes.S (Datatypes.S (length lg)).
Proof.
  intros Hopen Hq Hcap.
  assert (has_room c = true) as Hroom.
  { unfold has_room. rewrite Hq, Hcap.
    rewrite (bool_decide_eq_true_2 (length (buf c) < Datatypes.S (length (buf c)))%nat) by lia.
    apply orb_true_r. }
  set (c1 := Chan (cap c) (buf c ++ [Some e1]) (recvq c) (taken c) (closed c)).
  assert (deliver (Some e1) c = c1) as Hd.
  { unfold deliver. now rewrite bool_decide_eq_false_2 by lia. }
  assert (has_room c1 = false) as Hfull.
  { unfold has_room, c1. cbn. rewrite length_app. cbn.
    now rewrite !bool_decide_eq_false_2 by lia. }
  destruct (DrainError_on_open caller1 ctx_set (Some e1) c lg Hopen) as (lg1 & E1).
  rewrite Hroom, Hd in E1.
  destruct (DrainError_on_open caller2 ctx_set (Some e2) c1 lg1 Hopen) as (lg2 & E2).
  rewrite Hfull in E2.
  exists lg1, lg2, c1. repeat split; try done.
  pose proof (DrainError_logs_once caller1 ctx_set e1 (Some c) lg) as H1.
  pose proof (DrainError_logs_once caller2 ctx_set e2 (Some c1) lg1) as H2.
  rewrite E1 in H1. rewrite E2 in H2. cbn in *. lia.
Qed.

(** [DrainError] never fills a channel past its capacity and never hands
    over more than the one value. *)
Theorem DrainError_within_capacity caller ctx_set err (c c' : chan (option error)) lg lg' :
  (length (buf c) <= cap c)%nat ->
  DrainError caller ctx_set err (Some c) lg = Drained lg' (Some c') ->
  (length (buf c') <= cap c')%nat /\ cap c' = cap c /\ closed c' = false \/
  c' = c.
Proof.
  intros Hle E. destruct (closed c) eqn:Hc.
  { unfold DrainError, send_ready, do_send in E. rewrite Hc in E. discriminate. }
  destruct (DrainError_on_open caller ctx_set err c lg Hc) as (lg2 & E2).
  rewrite E2 in E. injection E as _ <-.
  destruct (has_room c) eqn:Hroom; [left | now right].
  unfold has_room in Hroom. unfold deliver.
  destruct (bool_decide (0 < recvq c)%nat); cbn in *; [done|].
  apply bool_decide_eq_true_1 in Hroom. rewrite length_app. cbn.
  split; [lia | done].
Qed.

Lemma append_empty (s : string) : s +:+ "" = s.
Proof.
  induction s as [|a s IH]; [done|].
  change (String a (s +:+ "") = String a s). now f_equal.
Qed.

Lemma append_append (s t u : string) : (s +:+ t) +:+ u = s +:+ t +:+ u.
Proof.
  induction s as [|a s IH]; [done|].
  change (String a ((s +:+ t) +:+ u) = String a (s +:+ t +:+ u)). now f_equal.
Qed.

(** What the loop writes: a line for each frame but the last. *)
Lemma write_frames_all_but_last fs sb :
  write_frames fs sb
    = sb +:+ String.concat "" (frame_line <$> take (length fs - 1) fs).
Proof.
  revert sb. induction fs as [|f rest IH]; intros sb.
  - cbn. now rewrite append_empty.
  - destruct rest as [|g rest].
    + cbn. now rewrite append_empty.
    + change (write_frames (f :: g :: rest) sb)
        with (write_frames (g :: rest) (sb +:+ frame_line f)).
      rewrite IH, append_append.
      replace (length (f :: g :: rest) - 1)%nat
        with (Datatypes.S (length (g :: rest) - 1)) by (cbn; lia).
      cbn [take fmap list_fmap].
      destruct (frame_line <$> take (length (g :: rest) - 1) (g :: rest)) eqn:E.
      * cbn. now rewrite append_empty.
      * reflexivity.
Qed.

(** The trace of [MsgWithStack] lists the frames above [MsgWithStack], 32 of
    them at most, but for the last of them: the loop stops on the frame
    after which no more follow, without writing it.  Called from a function
    with at most one frame above it, it lists nothing. *)
Theorem MsgWithStack_omits_last_frame msg stack :
  let frames := take 32 (drop 2 stack) in
  MsgWithStack msg stack
    = msg +:+ newline +:+ "Stack:" +:+ newline
      +:+ String.concat "" (frame_line <$> take (length frames - 1) frames) /\
  (length stack <= 3 ->
     MsgWithStack msg stack = msg +:+ newline +:+ "Stack:" +:+ newline)%nat.
Proof.
  intros frames. unfold MsgWithStack. fold frames.
  rewrite write_frames_all_but_last. cbn. split; [done|].
  intros Hlen.
  assert (length frames <= 1)%nat as Hf.
  { unfold frames. rewrite length_take, length_drop. lia. }
  destruct frames as [|f [|g rest]]; cbn in *; [done | done | lia].
Qed.
End InfraMore.

(** * Further properties of the analytic functions *)

Section AnalyticMore.
Import Analytic.
Context {S : Type} `{FunctionContext S}.
Variable ToInt : value -> Z * option error.

Local Arguments index : simpl never.
Local Arguments call : simpl never.
Local Arguments len : simpl never.
Local Arguments peek : simpl never.
Local Arguments fetch : simpl never.
Local Arguments fill : simpl never.
Local Arguments append : simpl never.

(** [changed_col] makes no check of the number of its arguments: with fewer
    than two of them it panics on an index out of range, unless the only
    argument is not a boolean, which is the error it returns. *)
Theorem changed_col_short_arguments (args : list value) (w : world S) :
  (length args <= 1)%nat ->
  exec (changed_col args) w
    = (Infra.Panics (Infra.PError (runtimeError "index out of range")), w) \/
  exists a0, args = [a0] /\ as_bool a0 = None /\
    exec (changed_col args) w
      = (Infra.Returns (Plain (VErr (not_bool_first a0)), false), w).
Proof.
  intros Hl. destruct args as [|a0 [|a1 rest]]; [| |cbn in Hl; lia].
  - left. reflexivity.
  - unfold changed_col. mstart. rewrite index_head. cbn.
    destruct (as_bool a0) as [[|]|] eqn:Ea.
    + left. reflexivity.
    + left. reflexivity.
    + right. exists a0. done.
Qed.

(** A loop that ends with a false result has written nothing. *)
Lemma had_changed_loop_false ignoreNull key args todo :
  forall result (w w' : world S),
    had_changed_loop ignoreNull key args todo result w = (inl false, w') ->
    result = false /\ w' = w.
Proof.
  induction todo as [|i todo IH]; intros result w w'; cbn.
  - now intros [= -> ->].
  - unfold mbind, M_bind.
    destruct (index_cases args (Z.of_nat i) w) as [[v ->] | ->]; [|discriminate].
    destruct (ignoreNull && is_nil v); [apply IH|].
    unfold getState.
    destruct (GetState (key +:+ Itoa (Z.of_nat i)) (store w)) as [lv [e|]];
      [discriminate|].
    destruct (negb (DeepEqual v lv)); [|apply IH].
    unfold putState.
    destruct (PutState (key +:+ Itoa (Z.of_nat i)) (Plain v) (store w)) as [s' [e|]];
      [discriminate|].
    intros E. apply IH in E as [[=] _].
Qed.

(** When [had_changed] answers false it has written nothing: the state is
    as it was, whatever the store does. *)
Theorem had_changed_false_writes_nothing (args : list value) (w w' : world S) :
  exec (had_changed args) w = (Infra.Returns (Plain (VBool false), true), w') ->
  w' = w.
Proof.
  unfold had_changed. mstart. case_bool_decide; [discriminate|].
  destruct (index_cases args (len args - 2) w) as [[v ->] | ->]; [|discriminate].
  destruct (as_bool v) as [[|]|]; cbn; [|congruence|discriminate].
  destruct (index_cases args 0 w) as [[a0 ->] | ->]; [|discriminate].
  destruct (as_bool a0) as [ig|]; cbn; [|discriminate].
  destruct (index_cases args (len args - 1) w) as [[k ->] | ->]; [|discriminate].
  destruct k; cbn; try discriminate.
  destruct (had_changed_loop ig s args _ false w) as [[r|o] w1] eqn:El; cbn.
  - intros [= -> <-]. now apply had_changed_loop_false in El.
  - intros [= -> <-]. apply had_changed_loop_exits in El
      as [(k & e & [=]) | [(k & e & [=]) | (p & [=])]].
Qed.


(** [lag] on a row that does not count (a false validity flag, or a nil
    value that is ignored), when a queue is stored under the key already:
    it returns the oldest value and leaves the state and the queue as they
    are, whatever the store is, so [PutState] is not called. *)
Theorem lag_does_not_advance (w : world S) v size dflt ign (cnt : nat) valid n key p q :
  (cnt <= 3)%nat -> ((1 <= cnt)%nat -> ToInt size = (n, None)) ->
  GetState key (store w) = (RqPtr p, None) -> heap w !! p = Some q ->
  valid = false \/ (v = VNil /\ (cnt = 3%nat -> ign = true)) ->
  exec (lag ToInt (call (v :: take cnt [size; dflt; VBool ign]) (VBool valid) (VStr key))) w
    = (Infra.Returns (Plain (rq_peek q).1, true), w).
Proof.
  intros Hc Hn Hg Hh Hv. destruct w as [s h]. cbn [store heap] in *.
  destruct cnt as [|[|[|[|cnt]]]]; [| | | | lia]; cbn [take];
    first [specialize (Hn ltac:(lia)) | clear Hn]; unfold lag; mstart;
    repeat first [ mstep | mtest | rewrite Hn; cbn
                 | progress (unfold getState; cbn [store]; rewrite Hg) ];
    rewrite bool_decide_eq_false_2 by done; cbn;
    rewrite (peek_at _ _ _ _ Hh);
    destruct (rq_peek q) as [old ok] eqn:Ep; cbn;
    (destruct valid; [|done]);
    (destruct Hv as [[=] | [-> Hign]]);
    mstep; try rewrite (Hign eq_refl); done.
Qed.

(** When the fourth argument of [lag] is not a boolean, the error that comes
    back prints the first argument, not the fourth. *)
Theorem lag_fourth_argument_error (w : world S) v size n dflt a3 valid key lv :
  GetState key (store w) = (lv, None) -> ToInt size = (n, None) ->
  as_bool a3 = None ->
  exec (lag ToInt (call [v; size; dflt; a3] (VBool valid) (VStr key))) w
    = (Infra.Returns
         (Plain (VErr (errorString
            ("The fourth arg is not a bool but got " +:+ Sprint_v v))), false), w).
Proof.
  intros Hg Hn Ha. unfold lag. mstart. mtest. mtest. mstep.
  unfold getState. rewrite Hg. mstep. mtest. mstep. rewrite Hn. cbn.
  mtest. mstep. mtest. mstep. rewrite Ha. now mstep.
Qed.
End AnalyticMore.

(** ** Over the store kept in memory *)

Section InMemory.
Import Analytic.
Variable ToInt : value -> Z * option error.

Local Arguments index : simpl never.
Local Arguments call : simpl never.
Local Arguments len : simpl never.
Local Arguments peek : simpl never.
Local Arguments fetch : simpl never.
Local Arguments fill : simpl never.
Local Arguments append : simpl never.

Local Arguments DeepEqual : simpl never.

(** What is read under a key. *)
Local Abbreviation read m key := (default (Plain VNil) (m !! key)).

(** One call of [changed_col] on a value that is looked at. *)
Lemma changed_col_in_memory ignoreNull v more key (m : gmap string stored) h :
  ignoreNull && is_nil v = false ->
  exec (changed_col (call (VBool ignoreNull :: v :: more) (VBool true) (VStr key)))
       (World m h)
    = if DeepEqual v (read m key)
      then (Infra.Returns (Plain VNil, true), World m h)
      else (Infra.Returns (Plain v, true), World (<[key := Plain v]> m) h).
Proof.
  intros Hskip. unfold changed_col. mstart. mstep.
  destruct ignoreNull; cbn in *.
  - mstep. rewrite Hskip. mstep. mstep. unfold getState. cbn. mstep.
    destruct (DeepEqual v (read m key)); cbn; done.
  - mstep. mstep. unfold getState. cbn. mstep.
    destruct (DeepEqual v (read m key)); cbn; done.
Qed.

(** [changed_col] returns a value that is not deeply equal to the one
    stored, and stores it; a value that is deeply equal to the one stored
    gives nil and no write.  Called again with a value that is deeply equal
    to itself, it returns nil and leaves the state as it is. *)
Theorem changed_col_once_per_change ignoreNull v more key (m : gmap string stored) h :
  ignoreNull && is_nil v = false ->
  let c := changed_col (call (VBool ignoreNull :: v :: more) (VBool true) (VStr key)) in
  let r1 := exec c (World m h) in
  (DeepEqual v (read m key) = false ->
     r1 = (Infra.Returns (Plain v, true), World (<[key := Plain v]> m) h)) /\
  (DeepEqual v (read m key) = true ->
     r1 = (Infra.Returns (Plain VNil, true), World m h)) /\
  (DeepEqual v (Plain v) = true ->
     exec c r1.2 = (Infra.Returns (Plain VNil, true), r1.2)).
Proof.
  intros Hskip c r1. unfold r1, c.
  rewrite (changed_col_in_memory _ _ _ _ _ _ Hskip).
  destruct (DeepEqual v (read m key)) eqn:Ed.
  - split; [done|]. split; [done|]. intros _. cbn.
    now rewrite (changed_col_in_memory _ _ _ _ _ _ Hskip), Ed.
  - split; [done|]. split; [done|]. intros Hrefl. cbn.
    rewrite (changed_col_in_memory _ _ _ _ _ _ Hskip), lookup_insert_eq. cbn.
    now rewrite Hrefl.
Qed.

(** One call of [latest] that stores nothing: an invalid row or a nil
    value. *)
Lemma latest_reading v dflt valid key (m : gmap string stored) h :
  (length dflt <= 1)%nat -> valid = false \/ v = VNil ->
  exec (latest (call (v :: dflt) (VBool valid) (VStr key))) (World m h)
    = (Infra.Returns
         (if bool_decide (read m key = Plain VNil)
          then Plain (default VNil (head dflt)) else read m key, true),
       World m h).
Proof.
  intros Hd Hv. unfold latest. mstart.
  assert (bool_decide (len (call (v :: dflt) (VBool valid) (VStr key)) - 2 ≠ 1)
          && bool_decide (len (call (v :: dflt) (VBool valid) (VStr key)) - 2 ≠ 2)
          = false) as ->.
  { rewrite len_call. apply andb_false_iff. cbn [length].
    destruct dflt as [|d dflt].
    - left. apply bool_decide_eq_false_2. cbn. lia.
    - right. apply bool_decide_eq_false_2. cbn in *. lia. }
  mstep. mstep.
  assert ((if valid
           then index (call (v :: dflt) (VBool valid) (VStr key)) 0
                  ≫= λ a0 : value, mret (negb (is_nil a0))
           else mret false) (World m h) = (inl false, World m h)) as Hf.
  { destruct valid; [|done]. destruct Hv as [[=] | ->].
    unfold mbind, M_bind. now mstep. }
  unfold mbind, M_bind in Hf. rewrite Hf. cbn. unfold getState. cbn.
  case_bool_decide as Hr; [|done].
  destruct dflt as [|d [|d' dflt]]; [| |cbn in Hd; lia].
  - now rewrite bool_decide_eq_false_2 by (rewrite len_call; cbn; lia).
  - rewrite bool_decide_eq_true_2 by (rewrite len_call; cbn; lia).
    now mstep.
Qed.

(** What [latest] is given on a valid row comes back on the rows that carry
    no value: it is stored, and a later call with a false validity flag or
    a nil value returns it, whatever default that call names, and leaves it
    stored. *)
Theorem latest_returns_last_value v dflt v' dflt' valid' key (m : gmap string stored) h :
  v ≠ VNil -> (length dflt <= 1)%nat -> (length dflt' <= 1)%nat ->
  valid' = false \/ v' = VNil ->
  let r1 := exec (latest (call (v :: dflt) (VBool true) (VStr key))) (World m h) in
  r1 = (Infra.Returns (Plain v, true), World (<[key := Plain v]> m) h) /\
  exec (latest (call (v' :: dflt') (VBool valid') (VStr key))) r1.2
    = (Infra.Returns (Plain v, true), r1.2).
Proof.
  intros Hv Hd Hd' Hv' r1.
  assert (r1 = (Infra.Returns (Plain v, true), World (<[key := Plain v]> m) h)) as E1.
  { unfold r1.
    unfold latest. mstart.
    assert (bool_decide (len (call (v :: dflt) (VBool true) (VStr key)) - 2 ≠ 1)
            && bool_decide (len (call (v :: dflt) (VBool true) (VStr key)) - 2 ≠ 2)
            = false) as ->.
    { rewrite len_call. apply andb_false_iff. cbn [length].
      destruct dflt as [|d dflt].
      - left. apply bool_decide_eq_false_2. cbn. lia.
      - right. apply bool_decide_eq_false_2. cbn in *. lia. }
    mstep. mstep. mstep.
    assert (is_nil v = false) as -> by now destruct v.
    cbn. now mstep. }
  split; [done|]. rewrite E1. cbn.
  rewrite (latest_reading _ _ _ _ _ _ Hd' Hv'), lookup_insert_eq. cbn.
  rewrite bool_decide_eq_false_2; [done|]. intros [= ->]. done.
Qed.

(** With nothing stored under the key, [latest] on an invalid row or a nil
    value returns the default it is given, nil without one, and stores
    nothing: a nil value never takes the place of what is stored. *)
Theorem latest_falls_back v dflt valid key (m : gmap string stored) h :
  (length dflt <= 1)%nat -> valid = false \/ v = VNil ->
  let r := exec (latest (call (v :: dflt) (VBool valid) (VStr key))) (World m h) in
  r.2 = World m h /\
  (m !! key = None -> r.1 = Infra.Returns (Plain (default VNil (head dflt)), true)) /\
  (forall u, m !! key = Some (Plain u) -> u ≠ VNil -> r.1 = Infra.Returns (Plain u, true)).
Proof.
  intros Hd Hv r. unfold r. rewrite (latest_reading _ _ _ _ _ _ Hd Hv). cbn.
  repeat split.
  - intros ->. cbn. now rewrite bool_decide_eq_true_2.
  - intros u -> Hu. cbn. rewrite bool_decide_eq_false_2; [done|].
    intros [= ->]. done.
Qed.

(** The keys of [had_changed] tell the indexes apart. *)
Lemma had_changed_key_inj key (i j : nat) :
  key +:+ Itoa (Z.of_nat i) = key +:+ Itoa (Z.of_nat j) -> i = j.
Proof.
  intros E. apply (inj (String.append key)) in E.
  apply (inj pretty) in E. lia.
Qed.

(** The loop of [had_changed] over a store in which every value it looks at
    is deeply equal to the one stored: nothing is written and the answer is
    the one it started with. *)
Lemma had_changed_loop_stable ignoreNull key args todo h :
  forall result (m : gmap string stored),
    (forall i, i ∈ todo -> is_Some (args !! i)) ->
    (forall i v, i ∈ todo -> args !! i = Some v -> ignoreNull && is_nil v = false ->
       DeepEqual v (read m (key +:+ Itoa (Z.of_nat i))) = true) ->
    had_changed_loop ignoreNull key args todo result (World m h)
      = (inl result, World m h).
Proof.
  induction todo as [|i todo IH]; intros result m Hargs Hstored; [done|].
  cbn. unfold mbind, M_bind.
  destruct (Hargs i) as [v Hv]; [left|].
  rewrite (index_nat _ _ _ _ Hv).
  assert (had_changed_loop ignoreNull key args todo result (World m h)
          = (inl result, World m h)) as Hrest.
  { apply IH; intros; [apply Hargs | eapply Hstored]; try right; eauto. }
  destruct (ignoreNull && is_nil v) eqn:Hskip; [exact Hrest|].
  unfold getState. cbn. now rewrite (Hstored i v); [|left|done..].
Qed.

(** The loop of [had_changed] over the store in memory, on values that are
    deeply equal to themselves: it ends, every value it looked at is deeply
    equal to what is stored under its key afterwards, and no other key is
    touched. *)
Lemma had_changed_loop_settles ignoreNull key args todo h :
  forall result (m : gmap string stored),
    NoDup todo ->
    (forall i, i ∈ todo -> is_Some (args !! i)) ->
    (forall i v, i ∈ todo -> args !! i = Some v -> DeepEqual v (Plain v) = true) ->
    exists r m',
      had_changed_loop ignoreNull key args todo result (World m h)
        = (inl r, World m' h) /\
      (forall i v, i ∈ todo -> args !! i = Some v -> ignoreNull && is_nil v = false ->
         DeepEqual v (read m' (key +:+ Itoa (Z.of_nat i))) = true) /\
      (forall k, (forall i, i ∈ todo -> k ≠ key +:+ Itoa (Z.of_nat i)) ->
         m' !! k = m !! k).
Proof.
  induction todo as [|i todo IH]; intros result m Hnd Hargs Hrefl.
  { exists result, m. split; [done|]. split; [|done].
    intros i v Hi. now apply elem_of_nil in Hi. }
  apply NoDup_cons in Hnd as [Hi Hnd].
  destruct (Hargs i) as [v Hv]; [left|].
  cbn. unfold mbind, M_bind. rewrite (index_nat _ _ _ _ Hv).
  set (ki := key +:+ Itoa (Z.of_nat i)).
  assert (forall result1 m1,
            (ignoreNull && is_nil v = false -> DeepEqual v (read m1 ki) = true) ->
            (forall k, k ≠ ki -> m1 !! k = m !! k) ->
            exists r m',
              had_changed_loop ignoreNull key args todo result1 (World m1 h)
                = (inl r, World m' h) /\
              (forall j u, j ∈ i :: todo -> args !! j = Some u ->
                 ignoreNull && is_nil u = false ->
                 DeepEqual u (read m' (key +:+ Itoa (Z.of_nat j))) = true) /\
              (forall k, (forall j, j ∈ i :: todo -> k ≠ key +:+ Itoa (Z.of_nat j)) ->
                 m' !! k = m !! k)) as Hgo.
  { intros result1 m1 Hki Hother.
    destruct (IH result1 m1 Hnd) as (r & m' & E & Hin & Hout).
    { intros j Hj. apply Hargs. now right. }
    { intros j u Hj. apply Hrefl. now right. }
    exists r, m'. split; [exact E|]. split.
    - intros j u Hj Hu Hskip. apply elem_of_cons in Hj as [-> | Hj].
      + assert (u = v) as -> by congruence.
        rewrite Hout; [now apply Hki|].
        intros j Hj Ek. apply had_changed_key_inj in Ek. now subst.
      + now apply Hin.
    - intros k Hk. rewrite Hout.
      + apply Hother. apply Hk. now left.
      + intros j Hj. apply Hk. now right. }
  destruct (ignoreNull && is_nil v) eqn:Hskip.
  { apply Hgo; [done | done]. }
  unfold getState. cbn. fold ki.
  destruct (DeepEqual v (read m ki)) eqn:Ed; cbn.
  - apply Hgo; [|done]. intros _. exact Ed.
  - apply Hgo.
    + intros _. rewrite lookup_insert_eq. cbn. apply (Hrefl i); [left | exact Hv].
    + intros k Hk. now rewrite lookup_insert_ne.
Qed.

(** [had_changed] on tracked values that are deeply equal to themselves:
    called again with the same arguments, it answers false and leaves the
    state as the first call left it. *)
Theorem had_changed_settles ignoreNull v vs key (m : gmap string stored) h :
  (forall x, x ∈ v :: vs -> DeepEqual x (Plain x) = true) ->
  let c := had_changed (call (VBool ignoreNull :: v :: vs) (VBool true) (VStr key)) in
  let r1 := exec c (World m h) in
  (exists changed, r1.1 = Infra.Returns (Plain (VBool changed), true)) /\
  exec c r1.2 = (Infra.Returns (Plain (VBool false), true), r1.2).
Proof.
  intros Hrefl c r1.
  set (args := call (VBool ignoreNull :: v :: vs) (VBool true) (VStr key)).
  set (todo := seq 1 (Z.to_nat (len args - 2) - 1)).
  assert (forall i, i ∈ todo -> is_Some (args !! i)) as Hargs.
  { intros i Hi. apply elem_of_seq in Hi. apply lookup_lt_is_Some.
    unfold args in *. rewrite len_call in Hi. unfold call.
    rewrite length_app. cbn in *. lia. }
  assert (forall i x, i ∈ todo -> args !! i = Some x -> DeepEqual x (Plain x) = true)
    as Hself.
  { intros i x Hi Hx. apply Hrefl. apply elem_of_seq in Hi.
    unfold args in *. rewrite len_call in Hi. unfold call in Hx.
    destruct i as [|i]; [lia|].
    cbn in Hi. change (((v :: vs) ++ [VBool true; VStr key]) !! i = Some x) in Hx.
    apply lookup_app_Some in Hx as [Hx | [Hlen Hx]].
    - eapply list_elem_of_lookup_2, Hx.
    - cbn in Hlen. lia. }
  assert (forall w, exec c w
            = match had_changed_loop ignoreNull key args todo false w with
              | (inl r, w') => (Infra.Returns (Plain (VBool r), true), w')
              | (inr o, w') => (o, w')
              end) as Hexec.
  { intros w. unfold c, had_changed. fold args. mstart.
    rewrite bool_decide_eq_false_2
      by (unfold args; rewrite len_call; cbn; lia).
    unfold args at 1 2. mstep. unfold args at 1. mstep.
    unfold args at 1 2. mstep. fold args. fold todo.
    now destruct (had_changed_loop ignoreNull key args todo false w) as [[r|o] w']. }
  destruct (had_changed_loop_settles ignoreNull key args todo h false m)
    as (r & m' & E & Hin & _); [apply NoDup_seq | exact Hargs | exact Hself |].
  assert (r1 = (Infra.Returns (Plain (VBool r), true), World m' h)) as E1.
  { unfold r1. now rewrite Hexec, E. }
  rewrite E1. cbn. split; [eauto|].
  rewrite Hexec.
  now rewrite (had_changed_loop_stable ignoreNull key args todo h false m' Hargs Hin).
Qed.
End InMemory.

(** ** The checks of the number of arguments *)

Section Arity.
Import Analytic.
Context {S : Type} `{FunctionContext S}.
Variable ToInt : value -> Z * option error.
Variable P : result -> Prop.

Lemma ends_ret {A} (a : A) : ends_with (S:=S) P (mret a).
Proof. intros w r w'. discriminate. Qed.

Lemma ends_bind {A B} (m : M S A) (f : A -> M S B) :
  ends_with P m -> (forall a, ends_with P (f a)) -> ends_with P (m ≫= f).
Proof.
  intros Hm Hf w r w'. unfold mbind, M_bind.
  destruct (m w) as [[a|o] w1] eqn:E.
  - apply Hf.
  - intros [= <- <-]. eapply Hm, E.
Qed.

Lemma ends_exit {A} v ok : P (Infra.Returns (v, ok)) -> ends_with (S:=S) (A:=A) P (exit v ok).
Proof. intros HP w r w' [= <- _]. exact HP. Qed.

Lemma ends_panic {A} e :
  P (Infra.Panics (Infra.PError e)) -> ends_with (S:=S) (A:=A) P (panic e).
Proof. intros HP w r w' [= <- _]. exact HP. Qed.

Hypothesis panics_allowed : forall r, P (Infra.Panics r).

Lemma ends_index args i : ends_with (S:=S) P (index args i).
Proof.
  intros w r w'. destruct (index_cases args i w) as [[v ->] | ->];
    [discriminate|]. intros [= <- _]. apply panics_allowed.
Qed.

Lemma ends_assert_string v : ends_with (S:=S) P (assert_string v).
Proof. intros w r w'. destruct v; cbn; try discriminate; intros [= <- _]; apply panics_allowed. Qed.

Lemma ends_getState key : ends_with P (getState key).
Proof. intros w r w'. discriminate. Qed.

Lemma ends_putState key v : ends_with P (putState key v).
Proof.
  intros w r w'. unfold putState. now destruct (PutState key v (store w)).
Qed.

Lemma ends_newRingqueue size : ends_with (S:=S) P (newRingqueue size).
Proof. intros w r w'. discriminate. Qed.

Lemma ends_deref rq : ends_with (S:=S) P (deref rq).
Proof.
  intros w r w'. unfold deref. destruct rq as [p|]; [destruct (heap w !! p)|];
    try discriminate; intros [= <- _]; apply panics_allowed.
Qed.

Lemma ends_setq p q : ends_with (S:=S) P (setq p q).
Proof. intros w r w'. discriminate. Qed.

Lemma goes_on_ret {A} (Q : A -> Prop) (a : A) : Q a -> goes_on_with (S:=S) Q (mret a).
Proof. intros HQ w r w' [= <- _]. exact HQ. Qed.

Lemma goes_on_bind {A B} (Q : B -> Prop) (m : M S A) (f : A -> M S B) :
  (forall a, goes_on_with Q (f a)) -> goes_on_with Q (m ≫= f).
Proof.
  intros Hf w r w'. unfold mbind, M_bind.
  destruct (m w) as [[a|o] w1]; [apply Hf | discriminate].
Qed.

Lemma goes_on_exit {A} (Q : A -> Prop) v ok : goes_on_with (S:=S) Q (exit v ok).
Proof. intros w r w'. discriminate. Qed.
End Arity.

Ltac ends Hp :=
  repeat first
    [ apply ends_ret | apply ends_getState | apply ends_putState
    | apply ends_newRingqueue | apply ends_setq
    | apply (ends_index _ Hp) | apply (ends_assert_string _ Hp)
    | apply (ends_deref _ Hp)
    | apply ends_bind; [|intros ?]
    | match goal with
      | |- ends_with _ (match ?x with _ => _ end) => destruct x
      | |- ends_with _ (let (_, _) := ?x in _) => destruct x
      end ].

Ltac goes_on :=
  repeat first
    [ apply goes_on_exit | apply goes_on_ret; reflexivity
    | apply goes_on_bind; intros ?
    | match goal with
      | |- goes_on_with _ (match ?x with _ => _ end) => destruct x
      | |- goes_on_with _ (let (_, _) := ?x in _) => destruct x
      end ].

Section ArityFacts.
Import Analytic.
Context {S : Type} `{FunctionContext S}.
Variable ToInt : value -> Z * option error.

Local Arguments index : simpl never.
Local Arguments call : simpl never.
Local Arguments len : simpl never.

(** The arity error of [lag] is none of its other errors. *)
Lemma arity_1_to_4_apart l :
  (forall k e, arity_1_to_4 l ≠ get_failed k e) /\
  (forall k e, arity_1_to_4 l ≠ put_failed k e) /\
  (forall v, arity_1_to_4 l ≠ not_bool_when v) /\
  (forall v, arity_1_to_4 l ≠ not_bool_fourth v) /\
  (forall v e, arity_1_to_4 l ≠ not_int_second v e).
Proof.
  unfold arity_1_to_4, get_failed, put_failed, not_bool_when, not_bool_fourth,
    not_int_second, fmt_Errorf.
  repeat split; intros; cbn; discriminate.
Qed.

Lemma lag_in_range (w : world S) pos valid key l :
  (1 <= length pos <= 4)%nat ->
  (exec (lag ToInt (call pos valid key)) w).1
    ≠ Infra.Returns (Plain (VErr (arity_1_to_4 l)), false).
Proof.
  intros Hl.
  set (P := fun r : result => r ≠ Infra.Returns (Plain (VErr (arity_1_to_4 l)), false)).
  assert (forall r, P (Infra.Panics r)) as Hp by (intros r; discriminate).
  destruct (arity_1_to_4_apart l) as (Hg & Hs & Hw & Hf & Hi).
  assert (ends_with P (lag ToInt (call pos valid key))) as Hends.
  { unfold lag.
    rewrite !bool_decide_eq_false_2 by (rewrite len_call; lia). cbn [orb].
    ends Hp; apply ends_exit; unfold P; intros [= E];
      first [ eapply Hg, E | eapply Hs, E | eapply Hw, E | eapply Hf, E
            | eapply Hi, E ]. }
  assert (goes_on_with (fun r : stored * bool => r.2 = true)
            (lag ToInt (call pos valid key))) as Hgoes.
  { unfold lag. goes_on. }
  unfold exec.
  destruct (lag ToInt (call pos valid key) w) as [[[v ok]|o] w'] eqn:E; cbn.
  - apply Hgoes in E. cbn in E. subst ok. discriminate.
  - apply Hends in E. exact E.
Qed.

Lemma lag_out_of_range (w : world S) pos valid key :
  ~ (1 <= length pos <= 4)%nat ->
  exec (lag ToInt (call pos valid key)) w
    = (Infra.Returns (Plain (VErr (arity_1_to_4 (Z.of_nat (length pos)))), false), w).
Proof.
  intros Hl. unfold lag. mstart. rewrite len_call.
  replace (Z.of_nat (length pos) + 2 - 2) with (Z.of_nat (length pos)) by lia.
  destruct (decide (length pos < 1)%nat).
  - now rewrite (bool_decide_eq_true_2 (Z.of_nat (length pos) < 1)) by lia.
  - rewrite (bool_decide_eq_true_2 (Z.of_nat (length pos) > 4)) by lia.
    now rewrite orb_true_r.
Qed.

(** [lag] returns its arity error exactly when it is called with no
    positional argument or with more than four, and then leaves the state
    as it was; with one to four of them that error never comes back,
    whatever else happens. *)
Theorem lag_arity_check (w : world S) pos valid key :
  (~ (1 <= length pos <= 4)%nat ->
     exec (lag ToInt (call pos valid key)) w
       = (Infra.Returns (Plain (VErr (arity_1_to_4 (Z.of_nat (length pos)))), false), w)) /\
  ((1 <= length pos <= 4)%nat ->
     forall l, (exec (lag ToInt (call pos valid key)) w).1
       ≠ Infra.Returns (Plain (VErr (arity_1_to_4 l)), false)).
Proof.
  split; [apply lag_out_of_range | intros Hl l; now apply lag_in_range].
Qed.

Lemma arity_1_or_2_apart l :
  (forall k e, arity_1_or_2 l ≠ get_failed k e) /\
  (forall v, arity_1_or_2 l ≠ not_bool_when v).
Proof.
  unfold arity_1_or_2, get_failed, not_bool_when, fmt_Errorf.
  repeat split; intros; cbn; discriminate.
Qed.

Lemma latest_in_range (w : world S) pos valid key l :
  (1 <= length pos <= 2)%nat ->
  (exec (latest (call pos valid key)) w).1
    ≠ Infra.Returns (Plain (VErr (arity_1_or_2 l)), false).
Proof.
  intros Hl.
  set (P := fun r : result => r ≠ Infra.Returns (Plain (VErr (arity_1_or_2 l)), false)).
  assert (forall r, P (Infra.Panics r)) as Hp by (intros r; discriminate).
  destruct (arity_1_or_2_apart l) as (Hg & Hw).
  assert (bool_decide (len (call pos valid key) - 2 ≠ 1)
          && bool_decide (len (call pos valid key) - 2 ≠ 2) = false) as Hin.
  { rewrite len_call. apply andb_false_iff.
    destruct (decide (length pos = 1%nat)).
    - left. apply bool_decide_eq_false_2. lia.
    - right. apply bool_decide_eq_false_2. lia. }
  assert (ends_with P (latest (call pos valid key))) as Hends.
  { unfold latest. rewrite Hin.
    ends Hp; apply ends_exit; unfold P; intros [= E];
      first [ eapply Hg, E | eapply Hw, E ]. }
  assert (goes_on_with (fun r : stored * bool => r.2 = true)
            (latest (call pos valid key))) as Hgoes.
  { unfold latest. goes_on. }
  unfold exec.
  destruct (latest (call pos valid key) w) as [[[v ok]|o] w'] eqn:E; cbn.
  - apply Hgoes in E. cbn in E. subst ok. discriminate.
  - apply Hends in E. exact E.
Qed.

Lemma latest_out_of_range (w : world S) pos valid key :
  ~ (1 <= length pos <= 2)%nat ->
  exec (latest (call pos valid key)) w
    = (Infra.Returns (Plain (VErr (arity_1_or_2 (Z.of_nat (length pos)))), false), w).
Proof.
  intros Hl. unfold latest. mstart. rewrite len_call.
  replace (Z.of_nat (length pos) + 2 - 2) with (Z.of_nat (length pos)) by lia.
  now rewrite !bool_decide_eq_true_2 by lia.
Qed.

Section Validation.
Variable Expr : Type.
Variables IsNumericArg IsTimeArg IsStringArg : Expr -> bool.
Variables IsFloatArg IsBooleanArg IsFieldRefArg : Expr -> bool.
Variable IntegerLiteral : Expr -> option Z.
Variable ProduceErrInfo : Z -> string -> error.

Local Abbreviation lag_val :=
  (Analytic.lag_val Expr IsNumericArg IsTimeArg IsStringArg IsFloatArg
     IsBooleanArg IsFieldRefArg IntegerLiteral ProduceErrInfo).

(** The validation of [latest] accepts one or two expressions and nothing
    else; the call of [latest] with as many positional arguments returns the
    arity error exactly when the validation would have. *)
Theorem latest_val_agrees (w : world S) (exprs : list Expr) pos valid key :
  length pos = length exprs ->
  (latest_val Expr exprs = Infra.Returns None <-> (1 <= length exprs <= 2)%nat) /\
  (latest_val Expr exprs = Infra.Returns None ->
     forall l, (exec (latest (call pos valid key)) w).1
       ≠ Infra.Returns (Plain (VErr (arity_1_or_2 l)), false)) /\
  (latest_val Expr exprs ≠ Infra.Returns None ->
     latest_val Expr exprs
       = Infra.Returns (Some (arity_1_or_2 (Z.of_nat (length exprs)))) /\
     exec (latest (call pos valid key)) w
       = (Infra.Returns (Plain (VErr (arity_1_or_2 (Z.of_nat (length exprs)))), false), w)).
Proof.
  intros Hlen.
  assert (latest_val Expr exprs = Infra.Returns None <-> (1 <= length exprs <= 2)%nat) as Hiff.
  { unfold latest_val. split.
    - destruct (decide (1 <= length exprs <= 2)%nat); [done|].
      now rewrite !bool_decide_eq_true_2 by lia.
    - intros Hl. destruct (decide (length exprs = 1%nat)).
      + now rewrite (bool_decide_eq_false_2 (Z.of_nat (length exprs) ≠ 1)) by lia.
      + rewrite (bool_decide_eq_false_2 (Z.of_nat (length exprs) ≠ 2)) by lia.
        now rewrite andb_false_r. }
  split; [exact Hiff|]. split.
  - intros Hv l. apply latest_in_range. rewrite Hlen. now apply Hiff.
  - intros Hv. assert (~ (1 <= length exprs <= 2)%nat) as Hl by (now rewrite <- Hiff).
    split.
    + unfold latest_val. now rewrite !bool_decide_eq_true_2 by lia.
    + rewrite <- Hlen. apply latest_out_of_range. now rewrite Hlen.
Qed.

(** The validation of [lag] never panics.  What it accepts has one to four
    expressions, a second expression that is of none of the types it bans
    and, when it is an integer literal, is not negative, and a fourth
    expression that is not numeric, a time or a string; the call of [lag]
    with as many positional arguments does not return the arity error. *)
Theorem lag_val_accepts (w : world S) (exprs : list Expr) pos valid key :
  (exists o, lag_val exprs = Infra.Returns o) /\
  (lag_val exprs = Infra.Returns None ->
     length pos = length exprs ->
     (1 <= length exprs <= 4)%nat /\
     (forall a1, exprs !! 1%nat = Some a1 ->
        IsFloatArg a1 || IsTimeArg a1 || IsBooleanArg a1 || IsStringArg a1
          || IsFieldRefArg a1 = false /\
        forall n, IntegerLiteral a1 = Some n -> 0 <= n) /\
     (forall a3, exprs !! 3%nat = Some a3 ->
        IsNumericArg a3 || IsTimeArg a3 || IsStringArg a3 = false) /\
     forall l, (exec (lag ToInt (call pos valid key)) w).1
       ≠ Infra.Returns (Plain (VErr (arity_1_to_4 l)), false)).
Proof.
  unfold Analytic.lag_val.
  destruct (decide (1 <= length exprs <= 4)%nat) as [Hl|Hl]; cycle 1.
  { assert (bool_decide (Z.of_nat (length exprs) ≠ 1)
            && bool_decide (Z.of_nat (length exprs) ≠ 2)
            && bool_decide (Z.of_nat (length exprs) ≠ 3)
            && bool_decide (Z.of_nat (length exprs) ≠ 4) = true) as ->.
    { now rewrite !bool_decide_eq_true_2 by lia. }
    split; [eauto | discriminate]. }
  assert (bool_decide (Z.of_nat (length exprs) ≠ 1)
          && bool_decide (Z.of_nat (length exprs) ≠ 2)
          && bool_decide (Z.of_nat (length exprs) ≠ 3)
          && bool_decide (Z.of_nat (length exprs) ≠ 4) = false) as ->.
  { destruct exprs as [|a [|b [|c [|d [|e rest]]]]]; cbn in Hl; try lia; reflexivity. }
  destruct exprs as [|a0 [|a1 [|a2 [|a3 [|a4 rest]]]]]; cbn in Hl; try lia; cbn;
    repeat match goal with
      | |- context [bool_decide ?Q] =>
          destruct (decide Q);
          [ rewrite (bool_decide_eq_true_2 Q) by done
          | rewrite (bool_decide_eq_false_2 Q) by done ];
          try (exfalso; cbn in *; lia)
      | |- context [if ?b then _ else _] => destruct b eqn:?
      | |- context [match IntegerLiteral ?a with _ => _ end] =>
          destruct (IntegerLiteral a) eqn:?
      end.
  all: split; [eauto|]; intros Hacc Hlen; simplify_eq/=.
  all: split; [lia|].
  all: split.
  all: try (by intros ? ?; simplify_eq/=).
  all: try (intros ? ?; simplify_eq/=;
            split; [by repeat match goal with
                         | Hb : _ = false |- _ => rewrite Hb; clear Hb
                         end|];
            intros m Hm;
            match goal with
            | Hlit : IntegerLiteral _ = None |- _ => congruence
            | Hlit : IntegerLiteral _ = Some ?k |- _ =>
                assert (m = k) by congruence; lia
            end).
  all: split; [by intros ? ?; simplify_eq/=;
                  repeat match goal with
                    | Hb : _ = false |- _ => rewrite Hb; clear Hb
                    end|].
  all: intros l; apply lag_in_range; lia.
Qed.
End Validation.
End ArityFacts.

(** * Further properties of the sink node *)

Section SinkMore.
Import Sink.
Variable K : Type.
Variable doCollect : K -> item -> K * option error.
Variable preprocess : item -> item * bool.
Variable BroadcastCustomized : item -> option item.
Variable IsIOError : error -> bool.
Variable GetId : item -> string.
Variable Connect : K -> K * option error.
Variable Close : K -> K.
Variables file stack : string.

Local Abbreviation ingest := (@Sink.ingest K preprocess file).
Local Abbreviation on_input :=
  (@Sink.on_input K doCollect preprocess BroadcastCustomized IsIOError GetId Close file stack).
Local Abbreviation step :=
  (@Sink.step K doCollect preprocess BroadcastCustomized IsIOError GetId Close file stack).
Local Abbreviation run :=
  (@Sink.run K doCollect preprocess BroadcastCustomized IsIOError GetId Close file stack).
Local Abbreviation drain := (Sink.drain file).
Local Abbreviation leave := (@Sink.leave K Close file stack).
Local Abbreviation start := (@Sink.start K Connect file stack).

Local Arguments Sink.leave : simpl never.

Lemma closes_app l l' : closes (l ++ l') = (closes l + closes l')%nat.
Proof. induction l as [|[] l IH]; cbn; lia. Qed.

(** The drain of an error on channels that are all open: it returns, logs a
    record, and leaves the channels open. *)
Lemma drain_on_open line e id (w : world) :
  all_open w ->
  exists w', drain line (Some e) id w = (Infra.Returns (), w') /\
    all_open w' /\ length (logs w') = Datatypes.S (length (logs w)) /\
    cancelled w' = cancelled w /\ errCh w' = errCh w /\ stats w' = stats w.
Proof.
  intros Hopen. unfold Sink.drain.
  pose proof (DrainError_logs_once (file, line) true e (id ≫= λ i, errchans w !! i) (logs w)) as Hlog.
  destruct (id ≫= λ i, errchans w !! i) as [c|] eqn:Ec.
  - assert (closed c = false) as Hc.
    { destruct id as [i|]; [|done]. cbn in Ec.
      eapply (Forall_lookup_1 _ _ _ _ Hopen Ec). }
    destruct (DrainError_on_open (file, line) true (Some e) c (logs w) Hc) as (lg & E).
    rewrite E in *. cbn in Hlog.
    destruct id as [i|]; [|done]. eexists. split; [reflexivity|].
    cbn. repeat split; try done.
    unfold all_open. cbn. apply Forall_insert; [done|].
    destruct (has_room c); [|done]. unfold deliver.
    now destruct (bool_decide (0 < recvq c)%nat).
  - unfold Infra.DrainError in *. cbn in *.
    eexists. split; [destruct id; reflexivity|].
    destruct id; cbn; repeat split; done.
Qed.

(** [leave] ends the goroutine and closes the node exactly once. *)
Lemma leave_closes o (s : SinkNode K) (w : world) :
  over (at_ (leave o s w)) = true /\
  closes (stats (env (leave o s w))) = Datatypes.S (closes (stats w)) /\
  sink (node (leave o s w)) = Close (sink s).
Proof.
  unfold Sink.leave, Sink.recovered, Infra.SafeRun.
  destruct o as [[e|]|r]; cbn.
  - pose proof (drain_keeps file 155 (Some e) (errCh w)
      (set_logs (logs w ++ []) (note [NodeClose] w))) as (_ & _ & Hs).
    destruct (Sink.drain file 155 _ _ _) as [[u|r] w1]; cbn in *;
      rewrite Hs, closes_app; cbn; (split; [done|split; [lia|done]]).
  - rewrite closes_app; cbn. split; [done|split; [lia|done]].
  - match goal with
    | |- context [Sink.drain file 155 ?e ?i ?w0] =>
        pose proof (drain_keeps file 155 e i w0) as (_ & _ & Hs);
        destruct (Sink.drain file 155 e i w0) as [[u|r'] w1]
    end; cbn in *; rewrite Hs, closes_app; cbn; (split; [done|split; [lia|done]]).
Qed.

Lemma ingest_keeps_config (s : SinkNode K) w it o s' w' :
  ingest s w it = (o, s', w') ->
  resendOut s' = resendOut s /\ resendInterval s' = resendInterval s /\
  sink s' = sink s /\ stats w' = stats w.
Proof.
  intros E. destruct (ingest_keeps _ _ _ _ _ _ _ _ _ E) as (Hs & _ & Hst & _).
  rewrite <- Hs. done.
Qed.

Lemma resend_keeps pick val (s : SinkNode K) w o s' w' :
  Sink.resend pick val s w = (o, s', w') ->
  closes (stats w') = closes (stats w) /\
  (resendOut s = None -> resendOut s' = None).
Proof.
  unfold Sink.resend. destruct (resendOut s) as [c|] eqn:Ho.
  - destruct (do_send val c), (send_ready (Some c)), (cancelled w), pick;
      intros [= <- <- <-]; cbn; rewrite ?closes_app; cbn; split; (lia || done).
  - destruct (cancelled w); intros [= <- <- <-]; cbn; rewrite ?closes_app; cbn;
      split; (lia || done).
Qed.

(** One turn of the loop closes the node exactly if it ends the goroutine,
    and waits in the retry loop only on an I/O error, with no resend channel
    and a positive interval. *)
Lemma on_input_shape d pick (s : SinkNode K) (w : world) :
  let st' := on_input d pick s w in
  closes (stats (env st'))
    = (closes (stats w) + if over (at_ st') then 1 else 0)%nat /\
  (forall data e, at_ st' = Retrying data e ->
     resendOut (node st') = None /\ resendInterval (node st') > 0 /\
     IsIOError e = true).
Proof.
  unfold Sink.on_input.
  destruct (ingest s w d) as [[[[data [|]]|r] s1] w1] eqn:Hing;
    destruct (ingest_keeps_config _ _ _ _ _ _ Hing) as (Ho & Hi & Hk & Hst).
  - cbn. rewrite Hst. split; [lia|done].
  - destruct (doCollect (sink s1) data) as [k [e|]]; cbn.
    + destruct (resendOut s1) as [c|] eqn:Ho1.
      * destruct (BroadcastCustomized data) as [val|].
        -- destruct (Sink.resend pick val _ _) as [[[u|r] s2] w2] eqn:Hre;
             destruct (resend_keeps _ _ _ _ _ _ _ Hre) as (Hc & _); cbn in Hc.
           ++ cbn. rewrite !closes_app, Hc, !closes_app, Hst. cbn. split; [lia|done].
           ++ destruct (leave_closes (Infra.Panics r) s2 w2) as (Hov & Hcl & _).
              rewrite Hov, Hcl, Hc, !closes_app, Hst. cbn. split; [lia|].
              intros data' e' Hr. rewrite Hr in Hov. done.
        -- cbn. rewrite !closes_app, Hst. cbn. split; [lia|done].
      * case_bool_decide as Hint.
        -- destruct (IsIOError e) eqn:Hio; cbn.
           ++ rewrite !closes_app, Hst. cbn. split; [lia|].
              intros data' e' [= <- <-]. done.
           ++ rewrite !closes_app, Hst. cbn. split; [lia|done].
        -- cbn. rewrite !closes_app, Hst. cbn. split; [lia|done].
    + rewrite !closes_app, Hst. cbn. split; [lia|done].
  - destruct (leave_closes (Infra.Panics r) s1 w1) as (Hov & Hcl & _).
    rewrite Hov, Hcl, Hst. split; [lia|].
    intros data' e' Hr. rewrite Hr in Hov. done.
Qed.

Local Abbreviation may_retry := (@Sink.may_retry K IsIOError).

Lemma step_may_retry (st : state K) ev : may_retry st -> may_retry (step st ev).
Proof.
  intros Hst. unfold Sink.step.
  destruct ev as [| |d pick|], (at_ st) as [|data e|err|r] eqn:Ea; try done.
  - intros data' e' Hr. cbn in *. apply (Hst data' e'). congruence.
  - destruct (cancelled (env st)); [|done].
    destruct (leave_closes (Infra.Returns None) (node st) (env st)) as (Hov & _).
    intros data' e' Hr. rewrite Hr in Hov. done.
  - destruct (cancelled (env st)); [|done].
    destruct (leave_closes (Infra.Returns None) (node st) (env st)) as (Hov & _).
    intros data' e' Hr. rewrite Hr in Hov. done.
  - exact (proj2 (on_input_shape d pick (node st) (env st))).
  - destruct (Hst data e Ea) as (Ho & Hi & _).
    destruct (doCollect (sink (node st)) data) as [k [e1|]]; cbn; [|done].
    destruct (IsIOError e1) eqn:Hio; [|done].
    intros data' e' [= <- <-]. done.
Qed.

Lemma run_may_retry (st : state K) evs : may_retry st -> may_retry (run st evs).
Proof.
  revert st. unfold Sink.run.
  induction evs as [|ev evs IH]; intros st Hst; cbn.
  - exact Hst.
  - apply IH, step_may_retry, Hst.
Qed.

(** The retry loop is entered and stayed in only on an I/O error, and
    only by a node with no resend channel and a positive resend interval:
    a node with a resend channel, or with no interval, never waits for a
    tick. *)
Theorem retry_only_when_configured (st : state K) evs data e :
  at_ st = Idle ->
  at_ (run st evs) = Retrying data e ->
  resendOut (node (run st evs)) = None /\
  resendInterval (node (run st evs)) > 0 /\
  IsIOError e = true.
Proof.
  intros Hi Hr. refine (run_may_retry st evs _ data e Hr).
  intros d' e'. rewrite Hi. done.
Qed.

Lemma step_closes (st : state K) ev :
  closes (stats (env (step st ev)))
    = (closes (stats (env st))
       + if over (at_ (step st ev)) && negb (over (at_ st)) then 1 else 0)%nat /\
  (over (at_ st) = true -> over (at_ (step st ev)) = true).
Proof.
  unfold Sink.step.
  destruct ev as [| |d pick|], (at_ st) as [|data e|err|r] eqn:Ea; cbn;
    rewrite ?Ea; cbn; try (split; [lia|done]).
  - destruct (cancelled (env st)).
    + destruct (leave_closes (Infra.Returns None) (node st) (env st)) as (Hov & Hcl & _).
      rewrite Hov, Hcl. cbn. split; [lia|done].
    + rewrite Ea. cbn. split; [lia|done].
  - destruct (cancelled (env st)).
    + destruct (leave_closes (Infra.Returns None) (node st) (env st)) as (Hov & Hcl & _).
      rewrite Hov, Hcl. cbn. split; [lia|done].
    + rewrite Ea. cbn. split; [lia|done].
  - destruct (on_input_shape d pick (node st) (env st)) as (Hcl & _). cbn in Hcl.
    rewrite Hcl. destruct (over _); cbn; split; (lia || done).
  - destruct (doCollect (sink (node st)) data) as [k [e1|]]; cbn;
      [destruct (IsIOError e1)|]; cbn; rewrite !closes_app; cbn; split; (lia || done).
Qed.

(** the node is closed exactly once, and exactly when the goroutine
    ends: over any sequence of events the number of closes recorded grows by
    one if the goroutine is over at the end and by none if it is still
    waiting. *)
Theorem closed_exactly_once (st : state K) evs :
  over (at_ st) = false ->
  closes (stats (env (run st evs)))
    = (closes (stats (env st)) + if over (at_ (run st evs)) then 1 else 0)%nat.
Proof.
  intros Hov.
  enough (forall st : state K,
    closes (stats (env (run st evs)))
      = (closes (stats (env st))
         + if over (at_ (run st evs)) && negb (over (at_ st)) then 1 else 0)%nat /\
    (over (at_ st) = true -> over (at_ (run st evs)) = true)) as Hall.
  { destruct (Hall st) as (E & _). rewrite E, Hov, andb_true_r. done. }
  clear st Hov. unfold Sink.run.
  induction evs as [|ev evs IH]; intros st; cbn.
  - destruct (over (at_ st)); cbn; split; (lia || done).
  - destruct (IH (step st ev)) as (E & Hk).
    destruct (step_closes st ev) as (E1 & Hk1).
    rewrite E, E1. split; [|by auto].
    destruct (over (at_ st)) eqn:H0.
    + rewrite (Hk1 eq_refl), !andb_false_r. cbn. lia.
    + destruct (over (at_ (step st ev))) eqn:H1.
      * rewrite (Hk eq_refl). cbn. lia.
      * cbn. rewrite andb_true_r. lia.
Qed.

Lemma wrap_int_small z : - 2 ^ 63 <= z < 2 ^ 63 -> wrap_int z = z.
Proof. intros Hz. unfold wrap_int. rewrite Z.mod_small; lia. Qed.

(** [ingest] of an EOF on open channels: the counter goes up by one, and
    the EOF error is logged if the counter has reached the limit. *)
Lemma ingest_eof (s : SinkNode K) (w : world) d :
  preprocess (IEOF d) = (IEOF d, false) -> all_open w ->
  0 <= currentEof s < 2 ^ 63 - 1 ->
  exists w',
    ingest s w (IEOF d)
      = (Infra.Returns (INil, true), set_currentEof (currentEof s + 1) s, w') /\
    all_open w' /\ stats w' = stats w /\ cancelled w' = cancelled w /\
    errCh w' = errCh w /\
    length (logs w')
      = (length (logs w)
         + if bool_decide (eoflimit s = currentEof s + 1)%Z then 1 else 0)%nat.
Proof.
  intros Hp Hopen Hc. unfold Sink.ingest. rewrite Hp. cbn.
  rewrite wrap_int_small by lia.
  case_bool_decide.
  - destruct (drain_on_open 188 (NewEOF d) (ctrlCh s) w Hopen)
      as (w' & -> & Ho & Hl & Hca & He & Hs).
    exists w'. repeat split; try done; try lia.
  - exists w. repeat split; try done; try lia.
Qed.

Lemma eof_run (ds : list (string * bool)) : forall st : state K,
  (forall d, preprocess (IEOF d) = (IEOF d, false)) ->
  at_ st = Idle -> all_open (env st) ->
  0 <= currentEof (node st) ->
  currentEof (node st) + Z.of_nat (length ds) < 2 ^ 63 ->
  let st' := run st (map (fun p => SelInput (IEOF p.1) p.2) ds) in
  at_ st' = Idle /\ all_open (env st') /\
  currentEof (node st') = currentEof (node st) + Z.of_nat (length ds) /\
  set_currentEof (currentEof (node st)) (node st') = node st /\
  stats (env st') = stats (env st) /\
  length (logs (env st'))
    = (length (logs (env st))
       + if bool_decide (currentEof (node st) < eoflimit (node st)
                         <= currentEof (node st) + Z.of_nat (length ds))%Z
         then 1 else 0)%nat.
Proof.
  induction ds as [|[d pick] ds IH]; intros st Hp Hi Hopen H0 Hlt.
  - cbn. repeat split; try done.
    + lia.
    + by destruct (node st).
    + rewrite bool_decide_eq_false_2 by lia. lia.
  - cbn in Hlt. unfold Sink.run. cbn [map foldl fst snd length].
    destruct (ingest_eof (node st) (env st) d (Hp d) Hopen)
      as (w' & E & Ho & Hs & Hca & He & Hl); [lia|].
    assert (step st (SelInput (IEOF d) pick)
            = MkState (set_currentEof (currentEof (node st) + 1) (node st)) w' Idle)
      as Est.
    { unfold Sink.step. rewrite Hi. unfold Sink.on_input. by rewrite E. }
    rewrite Est.
    match goal with
    | |- context [foldl ?f ?a ?l] => change (foldl f a l) with (run a l)
    end.
    destruct (IH (MkState (set_currentEof (currentEof (node st) + 1) (node st)) w' Idle))
      as (Ha & Hop & Hcur & Hnode & Hst & Hlg);
      [done | done | done | cbn; lia | cbn; lia |].
    cbn in Hcur, Hnode, Hst, Hlg. repeat split; try done.
    + rewrite Hcur. lia.
    + revert Hnode. clear.
      destruct (node (Sink.run _ _ _ _ _ _ _ _ _ _)), (node st).
      unfold set_currentEof. cbn. congruence.
    + congruence.
    + rewrite Hlg, Hl.
      repeat case_bool_decide; lia.
Qed.

(** the EOF error is raised exactly once.  Of EOF tuples arriving while
    the error channels are open, each one is counted and none reaches the
    sink; the EOF error is logged once when the count reaches the limit, and
    never if the limit is below one or not reached. *)
Theorem eof_raised_once (st : state K) (ds : list (string * bool)) :
  (forall d, preprocess (IEOF d) = (IEOF d, false)) ->
  at_ st = Idle -> all_open (env st) ->
  currentEof (node st) = 0 ->
  Z.of_nat (length ds) < 2 ^ 63 ->
  let st' := run st (map (fun p => SelInput (IEOF p.1) p.2) ds) in
  at_ st' = Idle /\
  currentEof (node st') = Z.of_nat (length ds) /\
  sink (node st') = sink (node st) /\
  stats (env st') = stats (env st) /\
  length (logs (env st'))
    = (length (logs (env st))
       + if bool_decide (1 <= eoflimit (node st) <= Z.of_nat (length ds))%Z
         then 1 else 0)%nat.
Proof.
  intros Hp Hi Hopen Hc Hlt.
  destruct (eof_run ds st Hp Hi Hopen) as (Ha & _ & Hcur & Hnode & Hst & Hlg);
    [lia..|].
  cbn. repeat split; try done.
  - rewrite Hcur. lia.
  - rewrite <- Hnode. done.
  - rewrite Hlg. rewrite Hc. repeat case_bool_decide; lia.
Qed.

(** an item that [preprocess] handles itself, a watermark, a batch EOF,
    and an error when [sendError] is off, leave the node as it was: the
    collect is not called and no statistics call is made. *)
Theorem dropped_items_change_nothing (st : state K) d pick x :
  at_ st = Idle ->
  (preprocess d = (x, true) \/
   preprocess d = (x, false) /\
     ((exists ts, x = IWatermark ts) \/ x = IBatchEOF \/
      (exists e, x = IError e) /\ sendError (node st) = false)) ->
  step st (SelInput d pick) = st.
Proof.
  intros Hi Hd. unfold Sink.step. rewrite Hi. unfold Sink.on_input, Sink.ingest.
  destruct Hd as [-> | [-> [[ts ->] | [-> | [[e ->] ->]]]]]; cbn;
    destruct st; cbn in *; by subst.
Qed.

(** the start of the goroutine.  A failing [Connect] does not stop the
    node: with open error channels the error is logged once, and the node
    waits for input with the EOF counter at zero and the sink not closed. *)
Theorem connect_error_goes_on (s : SinkNode K) (w : world) :
  all_open w ->
  let st := start s w in
  at_ st = Idle /\
  node st = set_currentEof 0 (set_sink (Connect (sink s)).1 s) /\
  stats (env st) = stats w /\
  length (logs (env st))
    = (length (logs w)
       + match (Connect (sink s)).2 with Some _ => 1 | None => 0 end)%nat.
Proof.
  intros Hopen. unfold Sink.start.
  destruct (Connect (sink s)) as [k [e|]]; cbn.
  - destruct (drain_on_open 90 e (errCh w) w Hopen)
      as (w' & -> & Ho & Hl & Hca & He & Hs).
    cbn. repeat split; try done; try lia.
  - repeat split; try done; try lia.
Qed.

(** the retry loop ends with the first collect that succeeds.  If the
    next [n] collects of the record fail with I/O errors and the one after
    succeeds, then [n+1] ticks call the collect [n+1] times, report the record
    as sent once, and bring the node back to its [select]. *)
Theorem retry_until_success (n : nat) : forall (st : state K) data e,
  at_ st = Retrying data e ->
  (forall j, (j < n)%nat ->
     exists e', (doCollect (collected doCollect data j (sink (node st))) data).2 = Some e' /\
                IsIOError e' = true) ->
  (doCollect (collected doCollect data n (sink (node st))) data).2 = None ->
  let st' := run st (replicate (Datatypes.S n) SelTick) in
  at_ st' = Idle /\
  sink (node st') = collected doCollect data (Datatypes.S n) (sink (node st)) /\
  stats (env st')
    = stats (env st) ++ replicate (Datatypes.S n) SetBufferLength
        ++ [OnSend data; OnProcessEnd; SetBufferLength].
Proof.
  induction n as [|n IH]; intros st data e Hr Hfail Hok.
  - cbn in *. unfold Sink.step. rewrite Hr.
    destruct (doCollect (sink (node st)) data) as [k err]; cbn in *. subst err.
    cbn. rewrite <- !app_assoc. done.
  - destruct (Hfail O) as (e' & He' & Hio); [lia|]. cbn in He'.
    change (replicate (Datatypes.S (Datatypes.S n)) SelTick)
      with (SelTick :: replicate (Datatypes.S n) SelTick).
    unfold Sink.run. cbn [foldl].
    assert (step st SelTick
            = MkState (set_sink (doCollect (sink (node st)) data).1 (node st))
                (note [SetBufferLength] (env st)) (Retrying data e')) as Est.
    { unfold Sink.step. rewrite Hr.
      destruct (doCollect (sink (node st)) data) as [k err]; cbn in *. subst err.
      cbn. by rewrite Hio. }
    rewrite Est.
    destruct (IH (MkState (set_sink (doCollect (sink (node st)) data).1 (node st))
                (note [SetBufferLength] (env st)) (Retrying data e')) data e')
      as (Ha & Hk & Hs); [done| | |].
    + intros j Hj. apply (Hfail (Datatypes.S j)). lia.
    + exact Hok.
    + unfold Sink.run in *. split; [exact Ha|]. split; [exact Hk|].
      rewrite Hs. cbn. rewrite <- !app_assoc. done.
Qed.

Lemma leave_node o (s : SinkNode K) (w : world) :
  node (leave o s w) = set_sink (Close (sink s)) s.
Proof.
  unfold Sink.leave, Sink.recovered, Infra.SafeRun.
  destruct o as [[e|]|r]; cbn; try done;
    by destruct (Sink.drain file 155 _ _ _) as [[u|r'] w1].
Qed.

Lemma resend_keeps_channel pick val (s : SinkNode K) w o s' w' :
  Sink.resend pick val s w = (o, s', w') ->
  is_Some (resendOut s) -> is_Some (resendOut s').
Proof.
  unfold Sink.resend. destruct (resendOut s) as [c|] eqn:Ho.
  - destruct (do_send val c), (send_ready (Some c)), (cancelled w), pick;
      intros [= <- <- <-] _; cbn; rewrite ?Ho; done.
  - intros _ [c [=]].
Qed.

Lemma step_keeps_channel (st : state K) ev :
  is_Some (resendOut (node st)) -> is_Some (resendOut (node (step st ev))).
Proof.
  intros Hs. unfold Sink.step.
  destruct ev as [| |d pick|], (at_ st) as [|data e|err|r] eqn:Ea; try done.
  - destruct (cancelled (env st)); [|done]. by rewrite leave_node.
  - destruct (cancelled (env st)); [|done]. by rewrite leave_node.
  - unfold Sink.on_input.
    destruct (ingest (node st) (env st) d) as [[[[data [|]]|r] s1] w1] eqn:Hing;
      destruct (ingest_keeps_config _ _ _ _ _ _ Hing) as (Ho & _).
    + cbn. by rewrite Ho.
    + destruct (doCollect (sink s1) data) as [k [e|]]; cbn; [|by rewrite Ho].
      destruct (resendOut s1) as [c|] eqn:Ho1; [|rewrite <- Ho in Hs; by destruct Hs].
      destruct (BroadcastCustomized data) as [val|]; [|cbn; by rewrite Ho1].
      destruct (Sink.resend pick val _ _) as [[[u|r] s2] w2] eqn:Hre;
        apply resend_keeps_channel in Hre; cbn; rewrite ?Ho1; try done.
      by rewrite leave_node.
    + rewrite leave_node. cbn. by rewrite Ho.
  - destruct (doCollect (sink (node st)) data) as [k [e1|]]; cbn; [|done].
    by destruct (IsIOError e1).
Qed.

(** A node that was given a resend channel never waits in the retry loop,
    whatever arrives and whatever the sink answers: a record that cannot be
    sent is handed to the channel or dropped in the same turn of the loop. *)
Theorem resend_channel_never_retries (s : SinkNode K) (c : chan item) (w : world) evs :
  let st := run (MkState (SetResendOutput (Some c) s) w Idle) evs in
  is_Some (resendOut (node st)) /\ forall data e, at_ st <> Retrying data e.
Proof.
  cbn.
  assert (is_Some (resendOut (node (run (MkState (SetResendOutput (Some c) s) w Idle) evs))))
    as Hs.
  { generalize (MkState (SetResendOutput (Some c) s) w Idle),
      (ltac:(by eexists) : is_Some (resendOut (node (MkState (SetResendOutput (Some c) s) w Idle)))).
    unfold Sink.run. induction evs as [|ev evs IH]; intros st Hst; cbn; [done|].
    apply IH, step_keeps_channel, Hst. }
  split; [exact Hs|]. intros data e Hr.
  destruct (run_may_retry (MkState (SetResendOutput (Some c) s) w Idle) evs
              ltac:(done) data e Hr) as (Hnone & _).
  rewrite Hnone in Hs. by destruct Hs.
Qed.
End SinkMore.

Section BuildFacts.
Import Sink.
Variable K : Type.
Variable newDefaultSinkNode : string -> Z -> string * bool * option nat.

(** the constructors never fail, and a node that caches or retries
    always has a positive resend interval: the configured one if that is
    positive, 100ms otherwise.  Any other node keeps the configured interval,
    positive or not.  The node starts with no resend channel and no EOF
    counted. *)
Theorem constructors_set_interval name (sink0 : K) limit sc isRetry :
  let n := newSinkNode newDefaultSinkNode name limit sc isRetry in
  let b := NewBytesSinkNode newDefaultSinkNode name sink0 limit sc isRetry in
  let t := NewTupleSinkNode newDefaultSinkNode name sink0 limit sc isRetry in
  (EnableCache sc || isRetry = true ->
     resendInterval n > 0 /\
     (ResendInterval sc > 0 -> resendInterval n = ResendInterval sc) /\
     (ResendInterval sc <= 0 -> resendInterval n = 100000000)) /\
  (EnableCache sc || isRetry = false -> resendInterval n = ResendInterval sc) /\
  resendOut n = None /\ currentEof n = 0 /\ eoflimit n = limit /\ sink n = None /\
  b = (set_sink (Some sink0) n, BytesCollect, None) /\
  t = (set_sink (Some sink0) n, TupleCollect, None) /\
  resendInterval b.1.1 = resendInterval n /\
  resendInterval t.1.1 = resendInterval n.
Proof.
  cbn. unfold NewBytesSinkNode, NewTupleSinkNode, newSinkNode, retry_interval, Millisecond.
  destruct (newDefaultSinkNode name (buffer_length sc isRetry)) as [[nm se] ch].
  cbn. repeat apply conj; try done.
  - intros ->. cbn. case_bool_decide; repeat apply conj; lia.
  - intros ->. cbn. done.
Qed.

Variable CollectRaw : K -> raw_arg -> K * option error.
Variable isRawTuple : item -> bool.
Variable TypeName : item -> string.

(** [bytesCollect] reports success only if the sink has accepted the
    record: a nil item and an item that is neither a raw tuple nor an error
    fail without a call of the sink, which is left as it was; a raw tuple is
    collected as it is, and an error as a raw tuple of its text. *)
Theorem bytesCollect_success_means_sent (k : K) (data : item) :
  let r := bytesCollect CollectRaw isRawTuple TypeName k data in
  (r = (k, Some (fmt_Errorf ("expect api.RawTuple data type but got " +:+ TypeName data))) /\
   (data = INil \/ isRawTuple data = false /\ forall e, data <> IError e)) \/
  (data <> INil /\ isRawTuple data = true /\ r = CollectRaw k (TheRaw data)) \/
  (exists e, data = IError e /\ isRawTuple data = false /\
             r = CollectRaw k (NewRaw (Error e))).
Proof.
  cbn. unfold bytesCollect, not_raw.
  destruct data as [|e|ts| |d|x]; [left; split; [done|by left]|..];
    destruct (isRawTuple _) eqn:Hraw;
    first [ by right; left
          | by right; right; eexists
          | left; split; [done|right; split; [done|intros ?; done]] ].
Qed.

Variable Msg : Type.
Variable CollectList : K -> item -> K * option error.
Variable CollectTuple : K -> tuple_arg Msg -> K * option error.
Variable isTupleList : item -> bool.
Variable isTuple : item -> bool.
Variable Rawdata : item -> option string.
Variable Unmarshal : string -> Msg * option error.
Variable now : Z.

Local Abbreviation tupleCollect :=
  (Sink.tupleCollect TypeName CollectList CollectTuple isTupleList isTuple
     Rawdata Unmarshal now).

(** [tupleCollect] leaves the sink untouched when it fails by itself:
    on a nil item, on a raw tuple whose data does not decode (the decoding
    error is returned as it is), and on an item of no known type.  A list is
    tried before a tuple, and whatever the result says otherwise is what the
    one call of the sink returned. *)
Theorem tupleCollect_success_means_sent (k : K) (data : item) :
  let r := tupleCollect k data in
  (r.1 = k /\ exists e, r.2 = Some e /\
     (data = INil \/
      (exists raw, Rawdata data = Some raw /\ (Unmarshal raw).2 = Some e) \/
      e = fmt_Errorf ("expect tuple data type but got " +:+ TypeName data))) \/
  (data <> INil /\
   ((isTupleList data = true /\ r = CollectList k data) \/
    (isTupleList data = false /\
     exists arg, r = CollectTuple k arg /\
       ((isTuple data = true /\ arg = TheTuple Msg data) \/
        (isTuple data = false /\
         ((exists raw m, Rawdata data = Some raw /\
             Unmarshal raw = (m, None) /\ arg = Decoded Msg data m) \/
          (exists e, data = IError e /\ Rawdata data = None /\
             arg = ErrorTuple Msg (Error e) now))))))).
Proof.
  cbn. unfold Sink.tupleCollect, not_tuple.
  destruct data as [|e|ts| |d|x];
    [left; split; [done|eexists; split; [done|by left]]|..].
  all: destruct (isTupleList _) eqn:Hl; [right; split; [done|by left]|].
  all: destruct (isTuple _) eqn:Ht;
         [right; split; [done|right; split; [done|eexists; split; [done|by left]]]|].
  all: destruct (Rawdata _) as [raw|] eqn:Hr.
  all: try (destruct (Unmarshal raw) as [m [e'|]] eqn:Hu;
         [left; split; [done|]; exists e'; split; [done|];
          right; left; exists raw; by rewrite Hu
         |right; split; [done|]; right; split; [done|];
          eexists; split; [done|]; right; split; [done|];
          left; exists raw, m; done]).
  all: try (right; split; [done|]; right; split; [done|];
            eexists; split; [done|]; right; split; [done|];
            right; eexists; done).
  all: left; split; [done|]; eexists; split; [done|]; by right; right.
Qed.
End BuildFacts.

(** * The further properties at work *)

(** Two errors on an empty channel of capacity one. *)
Lemma DrainError_first_error_wins_witness :
  exists lg1 lg2 c1,
    Infra.DrainError ("sink_node.go", 90) true (Some (errorString "first"))
      (Some (make_chan 1)) [] = Infra.Drained lg1 (Some c1) /\
    buf c1 = [Some (errorString "first")] /\
    Infra.DrainError ("sink_node.go", 155) true (Some (errorString "second"))
      (Some c1) lg1 = Infra.Drained lg2 (Some c1) /\
    length lg2 = 2%nat.
Proof.
  exact (DrainError_first_error_wins ("sink_node.go", 90) ("sink_node.go", 155)
           true (errorString "first") (errorString "second") (make_chan 1) []
           eq_refl eq_refl eq_refl).
Defined.

Lemma DrainError_within_capacity_witness :
  let c' := Chan 1 [Some (errorString "first")] 0 [] false in
  (length (buf c') <= cap c')%nat /\ cap c' = 1%nat /\ closed c' = false \/
  c' = make_chan 1.
Proof.
  intros c'.
  apply (DrainError_within_capacity ("sink_node.go", 90) true
           (Some (errorString "first")) (make_chan 1) c' []
           (Infra.drained_logs
              (Infra.DrainError ("sink_node.go", 90) true
                 (Some (errorString "first")) (Some (make_chan 1)) []))).
  - cbn. lia.
  - reflexivity.
Defined.

Lemma changed_col_short_arguments_witness :
  exec (changed_col [VInt 1]) five_stored
    = (Infra.Panics (Infra.PError (runtimeError "index out of range")), five_stored) \/
  exists a0, [VInt 1] = [a0] /\ as_bool a0 = None /\
    exec (changed_col [VInt 1]) five_stored
      = (Infra.Returns (Plain (VErr (not_bool_first a0)), false), five_stored).
Proof.
  apply (@changed_col_short_arguments _ MemStore [VInt 1] five_stored).
  cbn. lia.
Defined.

Lemma had_changed_false_writes_nothing_witness :
  (exec (had_changed (call [VBool false; VInt 5] (VBool true) (VStr "k"))) five_at_one).2
    = five_at_one.
Proof.
  apply (@had_changed_false_writes_nothing _ MemStore
           (call [VBool false; VInt 5] (VBool true) (VStr "k")) five_at_one).
  reflexivity.
Defined.

Lemma lag_fourth_argument_error_witness :
  exec (lag int_only (call [VInt 7; VInt 2; VNil; VStr "no"] (VBool true) (VStr "k")))
    nothing_stored
    = (Infra.Returns
         (Plain (VErr (errorString
            ("The fourth arg is not a bool but got " +:+ Sprint_v (VInt 7)))), false),
       nothing_stored).
Proof.
  exact (@lag_fourth_argument_error _ MemStore int_only nothing_stored
           (VInt 7) (VInt 2) 2 VNil (VStr "no") true "k" (Plain VNil)
           eq_refl eq_refl eq_refl).
Defined.

Lemma changed_col_once_per_change_witness :
  let c := changed_col (call [VBool true; VInt 7] (VBool true) (VStr "k")) in
  exec c five_stored
    = (Infra.Returns (Plain (VInt 7), true),
       Analytic.World (<["k" := Plain (VInt 7)]> {["k" := Plain (VInt 5)]}) []) /\
  exec c (exec c five_stored).2
    = (Infra.Returns (Plain VNil, true), (exec c five_stored).2).
Proof.
  intros c.
  pose proof (changed_col_once_per_change true (VInt 7) [] "k"
                {["k" := Plain (VInt 5)]} [] eq_refl) as H.
  cbv zeta in H. destruct H as (Hnew & _ & Hagain).
  split; [apply Hnew; reflexivity | apply Hagain; reflexivity].
Defined.

(** Two tracked values, the second of them stored already. *)
Lemma had_changed_settles_witness :
  let c := had_changed (call [VBool false; VInt 1; VInt 5] (VBool true) (VStr "k")) in
  (exists changed,
     (exec c (Analytic.World {["k2" := Plain (VInt 5)]} [])).1
       = Infra.Returns (Plain (VBool changed), true)) /\
  exec c (exec c (Analytic.World {["k2" := Plain (VInt 5)]} [])).2
    = (Infra.Returns (Plain (VBool false), true),
       (exec c (Analytic.World {["k2" := Plain (VInt 5)]} [])).2).
Proof.
  apply (had_changed_settles false (VInt 1) [VInt 5] "k" {["k2" := Plain (VInt 5)]} []).
  intros x Hx. apply list_elem_of_In in Hx.
  destruct Hx as [<- | [<- | []]]; reflexivity.
Defined.

Lemma latest_returns_last_value_witness :
  let r1 := exec (latest (call [VInt 7] (VBool true) (VStr "k"))) nothing_stored in
  r1 = (Infra.Returns (Plain (VInt 7), true),
        Analytic.World (<["k" := Plain (VInt 7)]> ∅) []) /\
  exec (latest (call [VNil; VInt 0] (VBool true) (VStr "k"))) r1.2
    = (Infra.Returns (Plain (VInt 7), true), r1.2).
Proof.
  apply (latest_returns_last_value (VInt 7) [] VNil [VInt 0] true "k" ∅ []).
  - discriminate.
  - cbn. lia.
  - cbn. lia.
  - right. reflexivity.
Defined.

Lemma latest_falls_back_witness :
  let r := exec (latest (call [VInt 7; VInt 0] (VBool false) (VStr "k"))) nothing_stored in
  r.2 = nothing_stored /\
  r.1 = Infra.Returns (Plain (VInt 0), true).
Proof.
  intros r.
  pose proof (latest_falls_back (VInt 7) [VInt 0] false "k" ∅ []) as H.
  cbv zeta in H. destruct H as (Hsame & Hdflt & _).
  - cbn. lia.
  - left. reflexivity.
  - split; [exact Hsame | exact (Hdflt (lookup_empty _))].
Defined.

Lemma lag_does_not_advance_witness :
  exec (lag int_only (call [VInt 7; VInt 2; VNil] (VBool false) (VStr "k"))) queue_stored
    = (Infra.Returns (Plain (VInt 5), true), queue_stored) /\
  @exec _ (@lag _ (FailingPut disk_full) int_only
             (call [VNil] (VBool true) (VStr "k"))) queue_stored
    = (Infra.Returns (Plain (VInt 5), true), queue_stored).
Proof.
  split.
  - apply (@lag_does_not_advance _ MemStore int_only queue_stored
             (VInt 7) (VInt 2) VNil true 2%nat false 2 "k" 0%nat
             (Ringqueue [VInt 5; VInt 6]));
      [lia | reflexivity | reflexivity | reflexivity | left; reflexivity].
  - apply (@lag_does_not_advance _ (FailingPut disk_full) int_only queue_stored
             VNil VNil VNil true 0%nat true 1 "k" 0%nat
             (Ringqueue [VInt 5; VInt 6]));
      [lia | lia | reflexivity | reflexivity | right; split; [reflexivity | lia]].
Defined.


(** Three expressions, and a call with three positional arguments. *)
Lemma latest_val_agrees_witness :
  latest_val nat [0; 1; 2]%nat = Infra.Returns (Some (arity_1_or_2 3)) /\
  exec (latest (call [VInt 1; VInt 2; VInt 3] (VBool true) (VStr "k"))) nothing_stored
    = (Infra.Returns (Plain (VErr (arity_1_or_2 3)), false), nothing_stored).
Proof.
  pose proof (@latest_val_agrees _ MemStore nat nothing_stored [0; 1; 2]%nat
                [VInt 1; VInt 2; VInt 3] (VBool true) (VStr "k") eq_refl)
    as (_ & _ & H).
  apply H. discriminate.
Defined.

(** A record whose first two collects fail with an I/O error: the node
    waits in the retry loop after the first tick. *)
Lemma retry_only_when_configured_witness :
  let st := Sink.run (failing_first 2) hand_on Some is_io item_id id "sink_node.go" ""
              (MkState retrying_node (quiet false) Idle)
              [SelInput (IOther "r") true; SelTick] in
  resendOut (node st) = None /\ resendInterval (node st) > 0 /\
  is_io io_down = true.
Proof.
  exact (retry_only_when_configured nat (failing_first 2) hand_on Some is_io
           item_id id "sink_node.go" ""
           (MkState retrying_node (quiet false) Idle)
           [SelInput (IOther "r") true; SelTick] (IOther "r") io_down
           eq_refl eq_refl).
Defined.

(** A record, the cancellation, the exit, and a record that comes too
    late: one close. *)
Lemma closed_exactly_once_witness :
  closes (stats (env (Sink.run (failing_first 0) hand_on Some is_io item_id id
                        "sink_node.go" ""
                        (MkState retrying_node (quiet false) Idle)
                        [SelInput (IOther "r") true; Cancel; SelDone;
                         SelInput (IOther "late") true])))
    = 1%nat.
Proof.
  exact (closed_exactly_once nat (failing_first 0) hand_on Some is_io item_id id
           "sink_node.go" "" (MkState retrying_node (quiet false) Idle)
           [SelInput (IOther "r") true; Cancel; SelDone;
            SelInput (IOther "late") true] eq_refl).
Defined.

(** Two EOF tuples at a node whose limit is one. *)
Lemma eof_raised_once_witness :
  let st := MkState retrying_node (quiet false) Idle in
  let st' := Sink.run (failing_first 0) hand_on Some is_io item_id id "sink_node.go" ""
               st [SelInput (IEOF "a") true; SelInput (IEOF "b") false] in
  at_ st' = Idle /\ currentEof (node st') = 2 /\ sink (node st') = 0%nat /\
  stats (env st') = [] /\ length (logs (env st')) = 1%nat.
Proof.
  apply (eof_raised_once nat (failing_first 0) hand_on Some is_io item_id id
           "sink_node.go" "" (MkState retrying_node (quiet false) Idle)
           [("a", true); ("b", false)]).
  - intros d. reflexivity.
  - reflexivity.
  - repeat constructor.
  - reflexivity.
  - reflexivity.
Defined.

Lemma dropped_items_change_nothing_witness :
  Sink.step (failing_first 0) hand_on Some is_io item_id id "sink_node.go" ""
    (MkState retrying_node (quiet false) Idle) (SelInput (IError io_down) true)
    = MkState retrying_node (quiet false) Idle.
Proof.
  apply (dropped_items_change_nothing nat (failing_first 0) hand_on Some is_io
           item_id id "sink_node.go" ""
           (MkState retrying_node (quiet false) Idle)
           (IError io_down) true (IError io_down)).
  - reflexivity.
  - right. split; [reflexivity|]. right. right. split; [by exists io_down | reflexivity].
Defined.

(** A sink whose connection fails. *)
Lemma connect_error_goes_on_witness :
  let st := Sink.start (fun k : nat => (k, Some io_down)) "sink_node.go" ""
              retrying_node (quiet false) in
  at_ st = Idle /\ node st = retrying_node /\ stats (env st) = [] /\
  length (logs (env st)) = 1%nat.
Proof.
  apply (connect_error_goes_on nat (fun k : nat => (k, Some io_down))
           "sink_node.go" "" retrying_node (quiet false)).
  repeat constructor.
Defined.

(** Two failures and a success: three ticks. *)
Lemma retry_until_success_witness :
  let st := Sink.step (failing_first 3) hand_on Some is_io item_id id "sink_node.go" ""
              (MkState retrying_node (quiet false) Idle) (SelInput (IOther "r") true) in
  let st' := Sink.run (failing_first 3) hand_on Some is_io item_id id "sink_node.go" ""
               st [SelTick; SelTick; SelTick] in
  at_ st' = Idle /\ sink (node st') = 4%nat /\
  stats (env st')
    = [OnProcessStart (IOther "r"); OnError io_down; SetBufferLength;
       SetBufferLength; SetBufferLength; OnSend (IOther "r"); OnProcessEnd;
       SetBufferLength].
Proof.
  intros st.
  apply (retry_until_success nat (failing_first 3) hand_on Some is_io item_id id
           "sink_node.go" "" 2%nat st (IOther "r") io_down).
  - reflexivity.
  - intros j Hj. exists io_down. split; [|reflexivity].
    destruct j as [|[|j]]; [reflexivity | reflexivity | lia].
  - reflexivity.
Defined.
